(** * hidkitd: scripts on HID device arrival and removal

    A shallow embedding of [hidkitd.c].  The daemon parses filters and
    action scripts from its command line, compiles the filters into an
    IOKit matching dictionary, registers an arrival and a removal
    notification, drains both iterators once, and then sits in the run loop.

    Everything the program does to the outside world (standard output,
    [system], IOKit and CoreFoundation calls) is recorded in a trace kept in
    an explicit [World]; the answers of the outside world come from a
    [Provider]. *)

From Stdlib Require Import Ascii String ZArith Lia.
From stdpp Require Import gmap strings list fin_maps.
From Stdlib Require DecimalString DecimalPos.

Local Open Scope string_scope.
Local Open Scope Z_scope.
Local Open Scope list_scope.

(** ** C strings

    A [const char *] is either NULL ([None]) or the bytes before the
    terminating NUL ([Some s]).  [dq], [nl] and [bs] are the double quote,
    the newline and the backslash. *)

Definition dq : string := String "034"%char EmptyString.
Definition nl : string := String "010"%char EmptyString.
Definition bs : string := String "092"%char EmptyString.

Fixpoint string_take (n : nat) (s : string) : string :=
  match n, s with
  | O, _ => EmptyString
  | S _, EmptyString => EmptyString
  | S n', String c s' => String c (string_take n' s')
  end.

(** [snprintf(buf, size, ...)] stores at most [size - 1] bytes of the
    formatted text [full] and terminates them. *)
Definition snprintf (size : nat) (full : string) : string :=
  string_take (size - 1) full.

(** ** [strtol(val, NULL, 10)] on a 64-bit [long] *)

Definition LONG_MAX : Z := 9223372036854775807.
Definition LONG_MIN : Z := -9223372036854775808.

Definition isspace (c : ascii) : bool :=
  let n := nat_of_ascii c in
  (Nat.eqb n 32 || (Nat.leb 9 n && Nat.leb n 13))%bool.

Definition digit_of (c : ascii) : option Z :=
  let n := nat_of_ascii c in
  if (Nat.leb 48 n && Nat.leb n 57)%bool then Some (Z.of_nat n - 48) else None.

Fixpoint skip_spaces (s : string) : string :=
  match s with
  | String c s' => if isspace c then skip_spaces s' else s
  | EmptyString => s
  end.

Fixpoint read_digits (s : string) (acc : Z) : Z :=
  match s with
  | String c s' =>
      match digit_of c with
      | Some d => read_digits s' (10 * acc + d)
      | None => acc
      end
  | EmptyString => acc
  end.

Definition clamp_long (z : Z) : Z :=
  if z >? LONG_MAX then LONG_MAX else if z <? LONG_MIN then LONG_MIN else z.

Definition strtol (val : string) : Z :=
  match skip_spaces val with
  | String "-"%char s' => clamp_long (- read_digits s' 0)
  | String "+"%char s' => clamp_long (read_digits s' 0)
  | s => clamp_long (read_digits s 0)
  end.

(** ** Well-formed UTF-8

    The byte sequences [CFStringCreateWithCString] accepts under
    [kCFStringEncodingUTF8]: one byte below 0x80; a lead byte 0xC2..0xDF
    and one continuation byte; a lead byte 0xE0..0xEF and two, without the
    overlong forms (0xE0 0x80..0x9F) and the surrogates (0xED 0xA0..0xBF);
    a lead byte 0xF0..0xF4 and three, without the overlong forms
    (0xF0 0x80..0x8F) and what lies beyond U+10FFFF (0xF4 0x90..0xBF). *)

Definition byte_in (lo hi : nat) (c : ascii) : bool :=
  let n := nat_of_ascii c in (Nat.leb lo n && Nat.leb n hi)%bool.

Definition continuation (c : ascii) : bool := byte_in 128 191 c.

Definition three_byte_lead (c0 c1 : ascii) : bool :=
  ((byte_in 224 224 c0 && byte_in 160 191 c1)
   || (byte_in 225 236 c0 && continuation c1)
   || (byte_in 237 237 c0 && byte_in 128 159 c1)
   || (byte_in 238 239 c0 && continuation c1))%bool.

Definition four_byte_lead (c0 c1 : ascii) : bool :=
  ((byte_in 240 240 c0 && byte_in 144 191 c1)
   || (byte_in 241 243 c0 && continuation c1)
   || (byte_in 244 244 c0 && byte_in 128 143 c1))%bool.

Fixpoint valid_utf8 (s : string) : bool :=
  match s with
  | EmptyString => true
  | String c0 s1 =>
      if byte_in 0 127 c0 then valid_utf8 s1
      else
        match s1 with
        | EmptyString => false
        | String c1 s2 =>
            if byte_in 194 223 c0 then (continuation c1 && valid_utf8 s2)%bool
            else
              match s2 with
              | EmptyString => false
              | String c2 s3 =>
                  if three_byte_lead c0 c1
                  then (continuation c2 && valid_utf8 s3)%bool
                  else
                    match s3 with
                    | EmptyString => false
                    | String c3 s4 =>
                        (four_byte_lead c0 c1 && continuation c2
                         && continuation c3 && valid_utf8 s4)%bool
                    end
              end
        end
  end.

(** ** The parsed command line *)

Record AppConfig := mkAppConfig {
  vendorID : Z;
  productID : Z;
  usagePage : Z;
  usage : Z;
  productName : option string;
  deviceAddress : option string;
  onConnectScript : option string;
  onDisconnectScript : option string
}.

(** [AppConfig config = {0};] *)
Definition config_zero : AppConfig :=
  mkAppConfig 0 0 0 0 None None None None.

(** ** CoreFoundation and IOKit values *)

Inductive CFValue :=
| CFNumber (n : Z)
| CFString (s : string).

Global Instance CFValue_eq_dec : EqDecision CFValue.
Proof. solve_decision. Defined.

(** [CFStringCreateWithCString(NULL, s, kCFStringEncodingUTF8)]: the
    string object, or NULL when the bytes are not well-formed UTF-8. *)
Definition CFStringCreateWithCString (s : string) : option CFValue :=
  if valid_utf8 s then Some (CFString s) else None.

(** The contents of a [CFMutableDictionaryRef]. *)
Abbreviation Dict := (gmap string CFValue).

Inductive NotificationKind := kIOMatchedNotification | kIOTerminatedNotification.

Global Instance NotificationKind_eq_dec : EqDecision NotificationKind.
Proof. solve_decision. Defined.

(** An [io_service_t] is a port name; [IO_OBJECT_NULL] is 0 and is what
    [IOIteratorNext] answers on an exhausted iterator, so the handles an
    iterator holds are the positive ones. *)
Abbreviation io_service_t := positive.

(** A registry entry: its handle, its class and its property table. *)
Record Device := mkDevice {
  dev_handle : io_service_t;
  dev_class : string;
  dev_props : Dict
}.

(** One notification: the kind and the batch its iterator yields. *)
Record DeviceEvent := mkDeviceEvent {
  ev_kind : NotificationKind;
  ev_batch : list io_service_t
}.

Definition kIOReturnSuccess : Z := 0.
Definition kIOReturnBadArgument : Z := 3758097090.

(** ** What the program does, as seen from outside

    [EvRunScript] marks the entry of [run_script], so that its calls can be
    counted; [EvServiceMatching] carries the identity of the dictionary
    returned, [EvAddNotification] the contents of the dictionary passed
    and the return code; [EvRunLoopSource] stands for the three calls that
    create the notification port and add its source to the run loop. *)

Inductive Event :=
| EvStdout (text : string)
| EvStderr (text : string)
| EvFlush
| EvRunScript (scriptPath : option string)
| EvSystem (command : string) (status : Z)
| EvServiceMatching (name : string) (dict : option nat)
| EvAddNotification (kind : NotificationKind) (matching : option Dict) (kr : Z)
| EvRelease (service : io_service_t)
| EvRunLoopSource
| EvRunLoopRun.

Global Instance Event_eq_dec : EqDecision Event.
Proof. solve_decision. Defined.

(** ** The outside world

    The provider answers the calls whose result the program does not
    control.  Calls that may differ from one call to the next are indexed by
    the number of earlier calls. *)
Record Provider := mkProvider {
  (** does the n-th [IOServiceMatching] return a dictionary *)
  base_filter_ok : nat -> bool;
  (** result of registering a notification of that kind with that query *)
  registration : NotificationKind -> Dict -> Z;
  (** the services the registry would report for that kind at registration *)
  registry : NotificationKind -> list Device;
  (** what a never-written [io_iterator_t] variable happens to yield *)
  indeterminate : NotificationKind -> list io_service_t;
  (** status returned by the n-th [system] call *)
  exit_status : nat -> string -> Z;
  (** the notifications the run loop gets to deliver, in order *)
  deliveries : list DeviceEvent
}.

(** The state of the process and of its surroundings: the live
    dictionaries by identity and the next identity, the number of calls
    made so far to [IOServiceMatching] and to [system], the notifications
    registered with their queries, and the trace. *)
Record World := mkWorld {
  cf_heap : gmap nat Dict;
  cf_next : nat;
  matching_calls : nat;
  system_calls : nat;
  subscriptions : list (NotificationKind * Dict);
  trace : list Event
}.

Definition boot : World := mkWorld ∅ 0 0 0 [] [].

(** ** A state monad over the world *)

Definition M (A : Type) : Type := World -> A * World.

Global Instance M_ret : MRet M := fun A a w => (a, w).
Global Instance M_bind : MBind M := fun A B k m w =>
  let (a, w') := m w in k a w'.

Definition emit (e : Event) : M unit := fun w =>
  (tt, mkWorld (cf_heap w) (cf_next w) (matching_calls w) (system_calls w)
         (subscriptions w) (trace w ++ [e])).

Definition printf (text : string) : M unit := emit (EvStdout text).
Definition fprintf_stderr (text : string) : M unit := emit (EvStderr text).
Definition fflush_stdout : M unit := emit EvFlush.

(** [if (b) { m }] *)
Definition when (b : bool) (m : M unit) : M unit := if b then m else mret tt.

(** What [main] comes to: a [return] with a status, the run loop, or the
    death of the process in a call that does not return. *)
Inductive Outcome :=
| Exited (status : Z)
| Running
| Killed.

(** What a function that hands an unchecked pointer to CoreFoundation
    comes to: it returns, or the process dies inside it. *)
Inductive Completion (A : Type) :=
| Returns (a : A)
| Halts.

Arguments Returns {A} a.
Arguments Halts {A}.

Global Instance Outcome_eq_dec : EqDecision Outcome.
Proof. solve_decision. Defined.

(** ** The collaborators: libc, CoreFoundation, IOKit *)

(** A query selects a registry entry when every key of the dictionary is
    matched: [IOProviderClass] against the class of the entry, any other
    key against the property table. *)
Definition property_of (d : Device) (key : string) : option CFValue :=
  if String.eqb key "IOProviderClass" then Some (CFString (dev_class d))
  else dev_props d !! key.

Definition matches (q : Dict) (d : Device) : bool :=
  bool_decide (map_Forall (fun key value => property_of d key = Some value) q).

(** The dictionary [createMatchingDictionary] builds when it returns
    one, as a value: the class constraint, then the same conditional
    stores in the same order. *)
Definition add_number (key : string) (v : Z) (q : Dict) : Dict :=
  if v >? 0 then <[key := CFNumber v]> q else q.

Definition add_string (key : string) (field : option string) (q : Dict) : Dict :=
  match field with
  | Some s => <[key := CFString s]> q
  | None => q
  end.

Definition compiled_query (config : AppConfig) : Dict :=
  add_string "DeviceAddress" (deviceAddress config)
    (add_string "Product" (productName config)
       (add_number "PrimaryUsage" (usage config)
          (add_number "PrimaryUsagePage" (usagePage config)
             (add_number "ProductID" (productID config)
                (add_number "VendorID" (vendorID config)
                   {[ "IOProviderClass" := CFString "IOHIDUserDevice" ]}))))).

Section Daemon.

Variable env : Provider.

Definition system (command : string) : M Z := fun w =>
  let status := exit_status env (system_calls w) command in
  (status, mkWorld (cf_heap w) (cf_next w) (matching_calls w)
             (S (system_calls w)) (subscriptions w)
             (trace w ++ [EvSystem command status])).

(** [IOServiceMatching(name)]: a fresh dictionary with the class
    constraint, or NULL. *)
Definition IOServiceMatching (name : string) : M (option nat) := fun w =>
  if base_filter_ok env (matching_calls w) then
    let d := cf_next w in
    (Some d, mkWorld (<[d := {[ "IOProviderClass" := CFString name ]}]> (cf_heap w))
               (S d) (S (matching_calls w)) (system_calls w) (subscriptions w)
               (trace w ++ [EvServiceMatching name (Some d)]))
  else
    (None, mkWorld (cf_heap w) (cf_next w) (S (matching_calls w))
             (system_calls w) (subscriptions w)
             (trace w ++ [EvServiceMatching name None])).

(** [CFDictionarySetValue(dict, key, value)]; the value object is retained
    by the dictionary, so creating and releasing it around the call leaves
    nothing else behind. *)
Definition CFDictionarySetValue (dict : nat) (key : string) (value : CFValue)
  : M unit := fun w =>
  (tt, mkWorld (alter (insert key value) dict (cf_heap w)) (cf_next w)
         (matching_calls w) (system_calls w) (subscriptions w) (trace w)).

(** [IOServiceAddMatchingNotification(port, kind, matching, callback,
    refcon, &iterator)].  The call consumes one reference to [matching].
    On success the iterator holds the entries already there that the
    query selects; on failure the iterator variable is not written.  The
    result is what the variable yields afterwards; the return code only
    shows in the trace, as the program drops it. *)
Definition IOServiceAddMatchingNotification (kind : NotificationKind)
    (matching : option nat) : M (list io_service_t) := fun w =>
  match matching ≫= (fun d => cf_heap w !! d) with
  | None =>
      (indeterminate env kind,
       mkWorld (cf_heap w) (cf_next w) (matching_calls w) (system_calls w)
         (subscriptions w)
         (trace w ++ [EvAddNotification kind None kIOReturnBadArgument]))
  | Some q =>
      let heap' := from_option (fun d => delete d (cf_heap w)) (cf_heap w) matching in
      let kr := registration env kind q in
      if kr =? kIOReturnSuccess then
        (dev_handle <$> filter (fun d => matches q d = true) (registry env kind),
         mkWorld heap' (cf_next w) (matching_calls w) (system_calls w)
           (subscriptions w ++ [(kind, q)])
           (trace w ++ [EvAddNotification kind (Some q) kr]))
      else
        (indeterminate env kind,
         mkWorld heap' (cf_next w) (matching_calls w) (system_calls w)
           (subscriptions w)
           (trace w ++ [EvAddNotification kind (Some q) kr]))
  end.

Definition IOObjectRelease (service : io_service_t) : M unit :=
  emit (EvRelease service).

(** ** The program *)

Definition run_script (scriptPath : option string) : M unit :=
  emit (EvRunScript scriptPath);;
  match scriptPath with
  | None => mret tt
  | Some path =>
      let command := snprintf 2048 (dq +:+ path +:+ dq) in
      printf ("DAEMON: Executing command: " +:+ command +:+ nl);;
      fflush_stdout;;
      system command;;
      mret tt
  end.

(** The iterator is given by the handles [IOIteratorNext] still has to
    yield; on the empty one it answers [IO_OBJECT_NULL] and the loop
    ends. *)
Fixpoint deviceConnected (config : AppConfig) (iterator : list io_service_t)
  : M unit :=
  match iterator with
  | [] => mret tt
  | service :: iterator' =>
      printf ("DAEMON: Received connect (matched) event." +:+ nl);;
      fflush_stdout;;
      run_script (onConnectScript config);;
      IOObjectRelease service;;
      deviceConnected config iterator'
  end.

Fixpoint deviceDisconnected (config : AppConfig) (iterator : list io_service_t)
  : M unit :=
  match iterator with
  | [] => mret tt
  | service :: iterator' =>
      printf ("DAEMON: Received disconnect (terminated) event." +:+ nl);;
      fflush_stdout;;
      run_script (onDisconnectScript config);;
      IOObjectRelease service;;
      deviceDisconnected config iterator'
  end.

(** [if (field) { str = CFStringCreateWithCString(field);
    CFDictionarySetValue(dict, key, str); CFRelease(str); }].  The result
    of [CFStringCreateWithCString] is not tested: when it is NULL,
    [CFDictionarySetValue] is called with a NULL value and the process dies
    there. *)
Definition set_string (dict : nat) (key : string) (field : option string)
  : M (Completion unit) :=
  match field with
  | Some s =>
      match CFStringCreateWithCString s with
      | Some str => CFDictionarySetValue dict key str;; mret (Returns tt)
      | None => mret Halts
      end
  | None => mret (Returns tt)
  end.

Definition createMatchingDictionary (config : AppConfig)
  : M (Completion (option nat)) :=
  dict ← IOServiceMatching "IOHIDUserDevice";
  match dict with
  | None =>
      fprintf_stderr ("DAEMON_ERROR: IOServiceMatching failed." +:+ nl);;
      mret (Returns None)
  | Some d =>
      when (vendorID config >? 0)
        (CFDictionarySetValue d "VendorID" (CFNumber (vendorID config)));;
      when (productID config >? 0)
        (CFDictionarySetValue d "ProductID" (CFNumber (productID config)));;
      when (usagePage config >? 0)
        (CFDictionarySetValue d "PrimaryUsagePage" (CFNumber (usagePage config)));;
      when (usage config >? 0)
        (CFDictionarySetValue d "PrimaryUsage" (CFNumber (usage config)));;
      name ← set_string d "Product" (productName config);
      match name with
      | Halts => mret Halts
      | Returns _ =>
          address ← set_string d "DeviceAddress" (deviceAddress config);
          match address with
          | Halts => mret Halts
          | Returns _ => mret (Returns (Some d))
          end
      end
  end.

Definition print_help (prog_name : string) : M unit :=
  printf ("hidkitd: A persistent daemon to run scripts on device events." +:+ nl);;
  printf ("NOTE: This tool is specifically designed to monitor `IOHIDUserDevice` objects," +:+ nl);;
  printf ("      such as keyboards, mice, game controllers, and other custom HID hardware." +:+ nl +:+ nl);;
  printf ("Usage: " +:+ prog_name +:+ " [FILTERS] [ACTIONS]" +:+ nl +:+ nl);;
  printf ("FILTERS (at least one is required, multiple are combined with AND logic):" +:+ nl);;
  printf ("  --vendor-id <id>       Match by USB Vendor ID (number)." +:+ nl);;
  printf ("  --product-id <id>      Match by USB Product ID (number)." +:+ nl);;
  printf ("  --name <string>        Match by Product Name (string)." +:+ nl);;
  printf ("  --address <mac_string> Match by Bluetooth Device Address (string)." +:+ nl);;
  printf ("  --usage-page <id>      Match by HID Primary Usage Page (number)." +:+ nl);;
  printf ("  --usage <id>           Match by HID Primary Usage (number)." +:+ nl +:+ nl);;
  printf ("ACTIONS (at least one is required):" +:+ nl);;
  printf ("  --on-connect <path>    Script to run when the device connects." +:+ nl);;
  printf ("  --on-disconnect <path> Script to run when the device disconnects." +:+ nl +:+ nl);;
  printf ("HELP:" +:+ nl);;
  printf ("  --help                 Display this help message and exit." +:+ nl +:+ nl);;
  printf ("HOW TO FIND FILTER VALUES:" +:+ nl);;
  printf ("  1. Connect your device." +:+ nl);;
  printf ("  2. Open the Terminal application." +:+ nl);;
  printf ("  3. Run the command: `ioreg -r -c IOHIDDevice`" +:+ nl);;
  printf ("  4. Search the output for your device's name (e.g., 'Logitech Mouse'). You will" +:+ nl);;
  printf ("     see a block of properties for it. Look for the following keys to use as filters:" +:+ nl);;
  printf ("     - " +:+ dq +:+ "ProductID" +:+ dq +:+ " = 1234" +:+ nl);;
  printf ("     - " +:+ dq +:+ "VendorID" +:+ dq +:+ " = 5678" +:+ nl);;
  printf ("     - " +:+ dq +:+ "Product" +:+ dq +:+ " = " +:+ dq +:+ "My Cool Keyboard" +:+ dq +:+ nl);;
  printf ("     - " +:+ dq +:+ "DeviceAddress" +:+ dq +:+ " = " +:+ dq +:+ "ab-cd-ef-12-34-56" +:+ dq +:+ nl);;
  printf ("     - " +:+ dq +:+ "PrimaryUsagePage" +:+ dq +:+ " = 1" +:+ nl);;
  printf ("     - " +:+ dq +:+ "PrimaryUsage" +:+ dq +:+ " = 6" +:+ nl +:+ nl);;
  printf ("EXAMPLE (for a standard keyboard to avoid multiple triggers from media keys):" +:+ nl);;
  printf ("  " +:+ prog_name +:+ " " +:+ bs +:+ nl);;
  printf ("    --name " +:+ dq +:+ "My Custom Keyboard" +:+ dq +:+ " " +:+ bs +:+ nl);;
  printf ("    --usage-page 1 --usage 6 " +:+ bs +:+ nl);;
  printf ("    --on-connect /path/to/connect_script.sh " +:+ bs +:+ nl);;
  printf ("    --on-disconnect /path/to/disconnect_script.sh" +:+ nl +:+ nl).

(** The [strcmp] chain of the argument loop: the field a flag stores
    its value in, or nothing for an unknown flag. *)
Definition set_flag (flag val : string) (c : AppConfig) : option AppConfig :=
  if String.eqb flag "--vendor-id" then
    Some (mkAppConfig (strtol val) (productID c) (usagePage c) (usage c)
            (productName c) (deviceAddress c) (onConnectScript c) (onDisconnectScript c))
  else if String.eqb flag "--product-id" then
    Some (mkAppConfig (vendorID c) (strtol val) (usagePage c) (usage c)
            (productName c) (deviceAddress c) (onConnectScript c) (onDisconnectScript c))
  else if String.eqb flag "--usage-page" then
    Some (mkAppConfig (vendorID c) (productID c) (strtol val) (usage c)
            (productName c) (deviceAddress c) (onConnectScript c) (onDisconnectScript c))
  else if String.eqb flag "--usage" then
    Some (mkAppConfig (vendorID c) (productID c) (usagePage c) (strtol val)
            (productName c) (deviceAddress c) (onConnectScript c) (onDisconnectScript c))
  else if String.eqb flag "--name" then
    Some (mkAppConfig (vendorID c) (productID c) (usagePage c) (usage c)
            (Some val) (deviceAddress c) (onConnectScript c) (onDisconnectScript c))
  else if String.eqb flag "--address" then
    Some (mkAppConfig (vendorID c) (productID c) (usagePage c) (usage c)
            (productName c) (Some val) (onConnectScript c) (onDisconnectScript c))
  else if String.eqb flag "--on-connect" then
    Some (mkAppConfig (vendorID c) (productID c) (usagePage c) (usage c)
            (productName c) (deviceAddress c) (Some val) (onDisconnectScript c))
  else if String.eqb flag "--on-disconnect" then
    Some (mkAppConfig (vendorID c) (productID c) (usagePage c) (usage c)
            (productName c) (deviceAddress c) (onConnectScript c) (Some val))
  else None.

(** The argument loop of [main], over [argv[i..]]: [i += 2] is the
    recursion on the list behind the pair. *)
Fixpoint main_parse (args : list string) (config : AppConfig)
  : M (Z + AppConfig) :=
  match args with
  | [] => mret (inr config)
  | [flag] =>
      fprintf_stderr ("Error: Flag " +:+ flag +:+ " is missing a value. Use --help." +:+ nl);;
      mret (inl 1)
  | flag :: val :: rest =>
      match set_flag flag val config with
      | Some config' => main_parse rest config'
      | None =>
          fprintf_stderr ("Error: Unknown flag " +:+ flag +:+ ". Use --help." +:+ nl);;
          mret (inl 1)
      end
  end.

Definition is_null (p : option string) : bool :=
  match p with None => true | Some _ => false end.

(** A notification reaches the callback its subscription registered, with
    the iterator of that subscription. *)
Definition dispatch (config : AppConfig) (ev : DeviceEvent) : M unit := fun w =>
  if bool_decide (ev_kind ev ∈ (subscriptions w).*1) then
    match ev_kind ev with
    | kIOMatchedNotification => deviceConnected config (ev_batch ev) w
    | kIOTerminatedNotification => deviceDisconnected config (ev_batch ev) w
    end
  else (tt, w).

Fixpoint pump (config : AppConfig) (evs : list DeviceEvent) : M unit :=
  match evs with
  | [] => mret tt
  | ev :: evs' => dispatch config ev;; pump config evs'
  end.

(** [CFRunLoopRun()] does not return; what is seen of it is the delivery
    of the notifications the provider has. *)
Definition CFRunLoopRun (config : AppConfig) : M unit :=
  emit EvRunLoopRun;;
  pump config (deliveries env).

Definition main (argv : list string) : M Outcome :=
  let argc := length argv in
  if ((argc =? 1)%nat
      || ((argc =? 2)%nat && String.eqb (nth 1 argv EmptyString) "--help"))%bool
  then
    print_help (nth 0 argv EmptyString);;
    mret (Exited 0)
  else
    parsed ← main_parse (tail argv) config_zero;
    match parsed with
    | inl status => mret (Exited status)
    | inr config =>
        if ((vendorID config =? 0) && (productID config =? 0)
            && is_null (productName config) && is_null (deviceAddress config)
            && (usagePage config =? 0) && (usage config =? 0))%bool
        then
          fprintf_stderr ("Error: You must provide at least one filter. Use --help." +:+ nl);;
          mret (Exited 1)
        else if (is_null (onConnectScript config)
                 && is_null (onDisconnectScript config))%bool
        then
          fprintf_stderr ("Error: You must provide at least one action script. Use --help." +:+ nl);;
          mret (Exited 1)
        else
          printf ("DAEMON: Starting up..." +:+ nl);;
          fflush_stdout;;
          emit EvRunLoopSource;;
          matchDict ← createMatchingDictionary config;
          match matchDict with
          | Halts => mret Killed
          | Returns matchDict =>
              matchedIterator ←
                IOServiceAddMatchingNotification kIOMatchedNotification matchDict;
              deviceConnected config matchedIterator;;
              termDict ← createMatchingDictionary config;
              match termDict with
              | Halts => mret Killed
              | Returns termDict =>
                  terminatedIterator ←
                    IOServiceAddMatchingNotification kIOTerminatedNotification
                      termDict;
                  deviceDisconnected config terminatedIterator;;
                  printf ("DAEMON: Monitoring started." +:+ nl);;
                  fflush_stdout;;
                  CFRunLoopRun config;;
                  mret Running
              end
          end
    end.

End Daemon.

(** ** Reading a trace *)

(** The handles released, in order. *)
Fixpoint released (tr : list Event) : list io_service_t :=
  match tr with
  | [] => []
  | EvRelease h :: tr' => h :: released tr'
  | _ :: tr' => released tr'
  end.

(** The arguments of the calls of [run_script], in order. *)
Fixpoint script_calls (tr : list Event) : list (option string) :=
  match tr with
  | [] => []
  | EvRunScript p :: tr' => p :: script_calls tr'
  | _ :: tr' => script_calls tr'
  end.

(** The commands handed to [system], in order. *)
Fixpoint launches (tr : list Event) : list string :=
  match tr with
  | [] => []
  | EvSystem c _ :: tr' => c :: launches tr'
  | _ :: tr' => launches tr'
  end.

(** ** Notions used in the statements *)

(** The constraint a numeric field contributes, if any. *)
Definition number_constraint (v : Z) : option CFValue :=
  if v >? 0 then Some (CFNumber v) else None.


(** A string field that [createMatchingDictionary] can store: NULL, or
    bytes that are well-formed UTF-8. *)
Definition utf8_or_null (field : option string) : bool :=
  match field with
  | Some s => valid_utf8 s
  | None => true
  end.

Definition string_fields_utf8 (config : AppConfig) : bool :=
  (utf8_or_null (productName config)
   && utf8_or_null (deviceAddress config))%bool.

(** The command [run_script] builds for a path. *)
Definition script_command (path : string) : string :=
  snprintf 2048 (dq +:+ path +:+ dq).

(** Whether a call of [run_script] gets as far as [system]. *)
Definition launch_count (scriptPath : option string) : nat :=
  match scriptPath with Some _ => 1 | None => 0 end.

(** The events of one call of [run_script] that starts when [n] calls of
    [system] have been made. *)
Definition run_script_events (env : Provider) (scriptPath : option string)
    (n : nat) : list Event :=
  EvRunScript scriptPath ::
  match scriptPath with
  | None => []
  | Some path =>
      [EvStdout ("DAEMON: Executing command: " +:+ script_command path +:+ nl);
       EvFlush;
       EvSystem (script_command path)
         (exit_status env n (script_command path))]
  end.

Definition connect_banner : string :=
  "DAEMON: Received connect (matched) event." +:+ nl.
Definition disconnect_banner : string :=
  "DAEMON: Received disconnect (terminated) event." +:+ nl.

(** The events of one callback over a batch. *)
Fixpoint callback_events (env : Provider) (banner : string)
    (script : option string) (batch : list io_service_t) (n : nat)
  : list Event :=
  match batch with
  | [] => []
  | service :: batch' =>
      EvStdout banner :: EvFlush ::
      run_script_events env script n ++
      EvRelease service ::
      callback_events env banner script batch' (n + launch_count script)
  end.

(** ** The command line, read as pairs *)

Inductive Flag :=
| FVendorID | FProductID | FUsagePage | FUsage
| FName | FAddress | FOnConnect | FOnDisconnect.

Definition flag_name (fl : Flag) : string :=
  match fl with
  | FVendorID => "--vendor-id"
  | FProductID => "--product-id"
  | FUsagePage => "--usage-page"
  | FUsage => "--usage"
  | FName => "--name"
  | FAddress => "--address"
  | FOnConnect => "--on-connect"
  | FOnDisconnect => "--on-disconnect"
  end.

Definition all_flags : list Flag :=
  [FVendorID; FProductID; FUsagePage; FUsage; FName; FAddress;
   FOnConnect; FOnDisconnect].

Definition known_flags : list string := flag_name <$> all_flags.

Definition filter_flags : list string :=
  ["--vendor-id"; "--product-id"; "--usage-page"; "--usage"; "--name";
   "--address"].

Definition action_flags : list string := ["--on-connect"; "--on-disconnect"].

(** The field a flag stores its value in. *)
Definition store (fl : Flag) (val : string) (c : AppConfig) : AppConfig :=
  match fl with
  | FVendorID =>
      mkAppConfig (strtol val) (productID c) (usagePage c) (usage c)
        (productName c) (deviceAddress c) (onConnectScript c) (onDisconnectScript c)
  | FProductID =>
      mkAppConfig (vendorID c) (strtol val) (usagePage c) (usage c)
        (productName c) (deviceAddress c) (onConnectScript c) (onDisconnectScript c)
  | FUsagePage =>
      mkAppConfig (vendorID c) (productID c) (strtol val) (usage c)
        (productName c) (deviceAddress c) (onConnectScript c) (onDisconnectScript c)
  | FUsage =>
      mkAppConfig (vendorID c) (productID c) (usagePage c) (strtol val)
        (productName c) (deviceAddress c) (onConnectScript c) (onDisconnectScript c)
  | FName =>
      mkAppConfig (vendorID c) (productID c) (usagePage c) (usage c)
        (Some val) (deviceAddress c) (onConnectScript c) (onDisconnectScript c)
  | FAddress =>
      mkAppConfig (vendorID c) (productID c) (usagePage c) (usage c)
        (productName c) (Some val) (onConnectScript c) (onDisconnectScript c)
  | FOnConnect =>
      mkAppConfig (vendorID c) (productID c) (usagePage c) (usage c)
        (productName c) (deviceAddress c) (Some val) (onDisconnectScript c)
  | FOnDisconnect =>
      mkAppConfig (vendorID c) (productID c) (usagePage c) (usage c)
        (productName c) (deviceAddress c) (onConnectScript c) (Some val)
  end.

(** [argv[1], argv[2]], [argv[3], argv[4]], ...; a last argument left
    alone is in no pair. *)
Fixpoint flag_pairs (args : list string) : list (string * string) :=
  match args with
  | flag :: val :: rest => (flag, val) :: flag_pairs rest
  | _ => []
  end.

Fixpoint flatten_pairs (pairs : list (string * string)) : list string :=
  match pairs with
  | [] => []
  | (flag, val) :: rest => flag :: val :: flatten_pairs rest
  end.

(** The value of the last pair that carries the flag. *)
Fixpoint last_value (flag : string) (pairs : list (string * string))
  : option string :=
  match pairs with
  | [] => None
  | (f, v) :: rest =>
      match last_value flag rest with
      | Some v' => Some v'
      | None => if String.eqb f flag then Some v else None
      end
  end.

Definition last_number (flag : string) (pairs : list (string * string))
    (default : Z) : Z :=
  match last_value flag pairs with Some v => strtol v | None => default end.

Definition last_string (flag : string) (pairs : list (string * string))
    (default : option string) : option string :=
  match last_value flag pairs with Some v => Some v | None => default end.

(** The configuration in which every field has the value of the last
    occurrence of its flag, and the value it had in [c] when the flag does
    not occur. *)
Definition config_after (c : AppConfig) (pairs : list (string * string))
  : AppConfig :=
  mkAppConfig
    (last_number "--vendor-id" pairs (vendorID c))
    (last_number "--product-id" pairs (productID c))
    (last_number "--usage-page" pairs (usagePage c))
    (last_number "--usage" pairs (usage c))
    (last_string "--name" pairs (productName c))
    (last_string "--address" pairs (deviceAddress c))
    (last_string "--on-connect" pairs (onConnectScript c))
    (last_string "--on-disconnect" pairs (onDisconnectScript c)).

Definition filter_spec_empty (c : AppConfig) : Prop :=
  vendorID c = 0 /\ productID c = 0 /\ usagePage c = 0 /\ usage c = 0
  /\ productName c = None /\ deviceAddress c = None.

Definition no_action (c : AppConfig) : Prop :=
  onConnectScript c = None /\ onDisconnectScript c = None.

(** The command lines answered with the help text: the bare program
    name, or the program name and [--help]. *)
Definition help_request (argv : list string) : Prop :=
  exists prog, argv = [prog] \/ argv = [prog; "--help"].

(** Events of the standard streams. *)
Definition is_output (e : Event) : bool :=
  match e with
  | EvStdout _ | EvStderr _ | EvFlush => true
  | _ => false
  end.

(** Two configurations that differ at most in the field of a flag. *)
Definition same_but (fl : Flag) (c1 c2 : AppConfig) : Prop :=
  forall v, store fl v c1 = store fl v c2.

(** A computation that touches nothing but the standard streams. *)
Definition outputs_only {A} (m : M A) : Prop :=
  forall w, exists a w' evs,
    m w = (a, w')
    /\ trace w' = trace w ++ evs /\ forallb is_output evs = true.

(** A provider where every call succeeds, every script exits with 0, and
    nothing is plugged in. *)
Definition quiet : Provider :=
  mkProvider (fun _ => true) (fun _ _ => kIOReturnSuccess) (fun _ => [])
    (fun _ => []) (fun _ _ => 0) [].

(** The handles of the registry entries a configuration selects. *)
Definition present_matching (env : Provider) (kind : NotificationKind)
    (config : AppConfig) : list io_service_t :=
  dev_handle <$>
    filter (fun d => matches (compiled_query config) d = true)
      (registry env kind).

(** The handles of the notifications that reach a callback, in order. *)
Definition delivered (subs : list (NotificationKind * Dict))
    (evs : list DeviceEvent) : list io_service_t :=
  concat (ev_batch <$> filter (fun ev => ev_kind ev ∈ subs.*1) evs).

(** The events of start-up when both dictionaries are built and both
    notifications are registered, from a world with [n] earlier calls of
    [system] and [d] earlier dictionaries. *)
Definition startup_events (env : Provider) (config : AppConfig) (d n : nat)
  : list Event :=
  [EvStdout ("DAEMON: Starting up..." +:+ nl); EvFlush; EvRunLoopSource;
   EvServiceMatching "IOHIDUserDevice" (Some d);
   EvAddNotification kIOMatchedNotification (Some (compiled_query config))
     kIOReturnSuccess]
  ++ callback_events env connect_banner (onConnectScript config)
       (present_matching env kIOMatchedNotification config) n
  ++ [EvServiceMatching "IOHIDUserDevice" (Some (S d));
      EvAddNotification kIOTerminatedNotification
        (Some (compiled_query config)) kIOReturnSuccess]
  ++ callback_events env disconnect_banner (onDisconnectScript config)
       (present_matching env kIOTerminatedNotification config)
       (n + length (present_matching env kIOMatchedNotification config)
            * launch_count (onConnectScript config))
  ++ [EvStdout ("DAEMON: Monitoring started." +:+ nl); EvFlush].

(** ** Examples used below *)

Definition argv_example : list string :=
  ["hidkitd"; "--vendor-id"; "1234"; "--product-id"; "5678";
   "--on-connect"; "/tmp/c.sh"].

Definition config_example : AppConfig :=
  mkAppConfig 1234 5678 0 0 None None (Some "/tmp/c.sh") None.

Definition keyboard : Device :=
  mkDevice 7 "IOHIDUserDevice"
    (<["VendorID" := CFNumber 1234]> (<["ProductID" := CFNumber 5678]> ∅)).

Definition mouse : Device :=
  mkDevice 9 "IOHIDUserDevice"
    (<["VendorID" := CFNumber 1234]> (<["ProductID" := CFNumber 9999]> ∅)).

(** Both devices are plugged in before the daemon starts; every call
    succeeds; later a second keyboard arrives and the first one leaves. *)
Definition desk : Provider :=
  mkProvider (fun _ => true) (fun _ _ => kIOReturnSuccess)
    (fun kind =>
       match kind with
       | kIOMatchedNotification => [keyboard; mouse]
       | kIOTerminatedNotification => []
       end)
    (fun _ => []) (fun _ _ => 0)
    [mkDeviceEvent kIOMatchedNotification [11%positive];
     mkDeviceEvent kIOTerminatedNotification [7%positive]].

Definition kIOReturnError : Z := 3758097084.

(** As [desk], but [IOServiceMatching] returns NULL every time. *)
Definition no_base_filter : Provider :=
  mkProvider (fun _ => false) (registration desk) (registry desk)
    (indeterminate desk) (exit_status desk) (deliveries desk).

(** As [desk], but no notification can be registered. *)
Definition refusing : Provider :=
  mkProvider (base_filter_ok desk) (fun _ _ => kIOReturnError) (registry desk)
    (indeterminate desk) (exit_status desk) (deliveries desk).

(** As [desk], but every script exits with status 1. *)
Definition failing : Provider :=
  mkProvider (base_filter_ok desk) (registration desk) (registry desk)
    (indeterminate desk) (fun _ _ => 256) (deliveries desk).

Definition argv_negative : list string :=
  ["hidkitd"; "--vendor-id"; "-5"; "--on-connect"; "/tmp/c.sh"].

Definition config_negative : AppConfig :=
  mkAppConfig (-5) 0 0 0 None None (Some "/tmp/c.sh") None.

(** ** A launch that fails *)

(** An event with the status of [system] blanked. *)
Definition erase_status (e : Event) : Event :=
  match e with
  | EvSystem command _ => EvSystem command 0
  | _ => e
  end.

(** What the daemon wrote to its standard streams. *)
Fixpoint written (tr : list Event) : list Event :=
  match tr with
  | [] => []
  | e :: tr' => if is_output e then e :: written tr' else written tr'
  end.

(** Two worlds that agree on everything but the statuses recorded in the
    trace. *)
Definition same_but_status (w w' : World) : Prop :=
  cf_heap w = cf_heap w'
  /\ cf_next w = cf_next w'
  /\ matching_calls w = matching_calls w'
  /\ system_calls w = system_calls w'
  /\ subscriptions w = subscriptions w'
  /\ erase_status <$> trace w = erase_status <$> trace w'.

(** Two providers that agree on everything but the status of the
    scripts. *)
Definition same_but_exit_status (env env' : Provider) : Prop :=
  (forall n, base_filter_ok env n = base_filter_ok env' n)
  /\ (forall kind q, registration env kind q = registration env' kind q)
  /\ (forall kind, registry env kind = registry env' kind)
  /\ (forall kind, indeterminate env kind = indeterminate env' kind)
  /\ deliveries env = deliveries env'.

(** Two computations that return the same and keep two such worlds in
    agreement. *)
Definition alike {A} (m m' : M A) : Prop :=
  forall w w', same_but_status w w' ->
    exists a v v', m w = (a, v) /\ m' w' = (a, v') /\ same_but_status v v'.

(** After every call of [system] that returned a non-zero status, the
    trace goes on with something written to a standard stream. *)
Definition failure_logged (tr : list Event) : Prop :=
  forall pre command status post,
    tr = pre ++ EvSystem command status :: post ->
    status <> 0 ->
    exists e, e ∈ post /\ is_output e = true.

(** A path of [n] bytes. *)
Fixpoint path_of_length (n : nat) : string :=
  match n with
  | O => EmptyString
  | S n' => String "a"%char (path_of_length n')
  end.

(** ** Further notions *)

(** Pairs whose flags are all known. *)
Definition known_pairs (a : list (Flag * string)) : list (string * string) :=
  (fun p => (flag_name p.1, p.2)) <$> a.

Definition unknown_flag_line (flag : string) : string :=
  "Error: Unknown flag " +:+ flag +:+ ". Use --help." +:+ nl.

Definition missing_value_line (flag : string) : string :=
  "Error: Flag " +:+ flag +:+ " is missing a value. Use --help." +:+ nl.

(** The configuration a command line leaves behind, and the command
    lines that get past the argument loop and both checks. *)
Definition parsed_config (argv : list string) : AppConfig :=
  config_after config_zero (flag_pairs (tail argv)).

Definition accepted (argv : list string) : Prop :=
  Nat.Even (length (tail argv))
  /\ Forall (fun p => p.1 ∈ known_flags) (flag_pairs (tail argv))
  /\ ~ filter_spec_empty (parsed_config argv)
  /\ ~ no_action (parsed_config argv).

Definition no_filter_line : string :=
  "Error: You must provide at least one filter. Use --help." +:+ nl.

Definition no_action_line : string :=
  "Error: You must provide at least one action script. Use --help." +:+ nl.

(** The world after one more line on the standard error stream. *)
Definition with_stderr (w : World) (line : string) : World :=
  mkWorld (cf_heap w) (cf_next w) (matching_calls w) (system_calls w)
    (subscriptions w) (trace w ++ [EvStderr line]).

(** The decimal notation of an integer: a minus sign for a negative one,
    then the digits, without leading zeros. *)
Definition decimal (z : Z) : string :=
  DecimalString.NilZero.string_of_int (Z.to_int z).

Definition numeric_flags : list Flag :=
  [FVendorID; FProductID; FUsagePage; FUsage].

(** The numeric field of a numeric flag. *)
Definition numeric_field (fl : Flag) (c : AppConfig) : option Z :=
  match fl with
  | FVendorID => Some (vendorID c)
  | FProductID => Some (productID c)
  | FUsagePage => Some (usagePage c)
  | FUsage => Some (usage c)
  | _ => None
  end.

(** A text that does not go on with a digit. *)
Definition no_leading_digit (s : string) : bool :=
  match s with
  | EmptyString => true
  | String c _ => match digit_of c with Some _ => false | None => true end
  end.

(** A computation whose events satisfy [P]. *)
Definition emits (P : list Event -> Prop) {A} (m : M A) : Prop :=
  forall w, exists a w' evs,
    m w = (a, w') /\ trace w' = trace w ++ evs /\ P evs.

(** Every line on the standard output is followed at once by a flush. *)
Fixpoint flushed (tr : list Event) : bool :=
  match tr with
  | [] => true
  | EvStdout _ :: EvFlush :: tr' => flushed tr'
  | EvStdout _ :: _ => false
  | _ :: tr' => flushed tr'
  end.

(** Events other than a line on the standard output or a launch. *)
Definition quiet_event (e : Event) : bool :=
  match e with
  | EvStdout _ | EvSystem _ _ => false
  | _ => true
  end.

(** The commands a configuration may launch. *)
Definition configured_command (config : AppConfig) (command : string) : Prop :=
  exists path,
    (onConnectScript config = Some path \/ onDisconnectScript config = Some path)
    /\ command = script_command path.

(** Whether the n-th dictionary is built and the notification of that kind
    is registered with it. *)
Definition registered (env : Provider) (n : nat) (kind : NotificationKind)
    (config : AppConfig) : bool :=
  (base_filter_ok env n
   && (registration env kind (compiled_query config) =? kIOReturnSuccess))%bool.

(** The events of one handle in a callback, with the status blanked. *)
Definition handle_events (banner : string) (script : option string)
    (service : io_service_t) : list Event :=
  [EvStdout banner; EvFlush; EvRunScript script]
  ++ match script with
     | None => []
     | Some path =>
         [EvStdout ("DAEMON: Executing command: " +:+ script_command path +:+ nl);
          EvFlush;
          EvSystem (script_command path) 0]
     end
  ++ [EvRelease service].

(** Whether [needle] occurs in [hay]. *)
Fixpoint contains (needle hay : string) : bool :=
  (String.prefix needle hay
   || match hay with
      | EmptyString => false
      | String _ hay' => contains needle hay'
      end)%bool.

(** Whether an event is a line on the standard output. *)
Definition is_stdout (e : Event) : bool :=
  match e with EvStdout _ => true | _ => false end.



(** * Properties *)

(** ** Running the monad *)

Lemma bind_run {A B} (m : M A) (k : A -> M B) (w : World) :
  (m ≫= k) w = k (m w).1 (m w).2.
Proof. unfold mbind, M_bind. by destruct (m w). Qed.

Lemma ret_run {A} (a : A) (w : World) : (mret a : M A) w = (a, w).
Proof. reflexivity. Qed.

Lemma world_eta (w : World) :
  mkWorld (cf_heap w) (cf_next w) (matching_calls w) (system_calls w)
    (subscriptions w) (trace w) = w.
Proof. by destruct w. Qed.

Ltac run := repeat (rewrite ?bind_run, ?ret_run; simpl).


(** ** Well-formed UTF-8 *)

(** Plain ASCII is UTF-8. *)
Lemma valid_utf8_ascii (s : string) :
  Forall (fun c => (nat_of_ascii c < 128)%nat) (list_ascii_of_string s) ->
  valid_utf8 s = true.
Proof.
  induction s as [|c s IH]; [done|].
  cbn [list_ascii_of_string valid_utf8]. intros [Hc Hs]%Forall_cons.
  unfold byte_in. cbn [Nat.leb andb].
  by rewrite (proj2 (Nat.leb_le _ _) (proj1 (Nat.lt_succ_r _ _) Hc)), IH.
Qed.

(** Two-, three- and four-byte sequences (U+00E9, U+20AC, U+1F600) are
    accepted; a stray continuation byte, an overlong form, a surrogate, a
    code point beyond U+10FFFF, a sequence cut short and the bytes 0xFF
    0xFE are not. *)
Example valid_utf8_samples :
  valid_utf8 "My Cool Keyboard" = true
  /\ valid_utf8 (String "195" (String "169" EmptyString)) = true
  /\ valid_utf8 (String "226" (String "130" (String "172" EmptyString))) = true
  /\ valid_utf8 (String "240" (String "159" (String "152"
                   (String "128" EmptyString)))) = true
  /\ valid_utf8 (String "128" EmptyString) = false
  /\ valid_utf8 (String "192" (String "128" EmptyString)) = false
  /\ valid_utf8 (String "237" (String "160" (String "128" EmptyString))) = false
  /\ valid_utf8 (String "244" (String "144" (String "128"
                   (String "128" EmptyString)))) = false
  /\ valid_utf8 (String "226" (String "130" EmptyString)) = false
  /\ valid_utf8 (String "255" (String "254" EmptyString)) = false.
Proof. by vm_compute. Qed.

(** ** The matching dictionary *)

Section Compile.

Variable env : Provider.

Lemma set_number_run (d : nat) (key : string) (v : Z) (w : World) :
  when (v >? 0) (CFDictionarySetValue d key (CFNumber v)) w =
    (tt, mkWorld (alter (add_number key v) d (cf_heap w)) (cf_next w)
           (matching_calls w) (system_calls w) (subscriptions w) (trace w)).
Proof.
  unfold when, add_number, CFDictionarySetValue.
  destruct (v >? 0); [done|].
  rewrite ret_run, alter_id by done. by rewrite world_eta.
Qed.

Lemma set_string_run (d : nat) (key : string) (field : option string)
    (w : World) :
  utf8_or_null field = true ->
  set_string d key field w =
    (Returns tt,
     mkWorld (alter (add_string key field) d (cf_heap w)) (cf_next w)
       (matching_calls w) (system_calls w) (subscriptions w) (trace w)).
Proof.
  unfold set_string, add_string, CFStringCreateWithCString, utf8_or_null.
  destruct field as [s|].
  - intros ->. reflexivity.
  - intros _. rewrite ret_run, alter_id by done. by rewrite world_eta.
Qed.

Lemma set_string_halts (d : nat) (key : string) (field : option string)
    (w : World) :
  utf8_or_null field = false -> set_string d key field w = (Halts, w).
Proof.
  unfold set_string, CFStringCreateWithCString, utf8_or_null.
  destruct field as [s|]; [|discriminate]. by intros ->.
Qed.

Lemma createMatchingDictionary_built (config : AppConfig) (w : World) :
  base_filter_ok env (matching_calls w) = true ->
  string_fields_utf8 config = true ->
  createMatchingDictionary env config w =
    (Returns (Some (cf_next w)),
     mkWorld (<[cf_next w := compiled_query config]> (cf_heap w))
       (S (cf_next w)) (S (matching_calls w)) (system_calls w)
       (subscriptions w)
       (trace w ++ [EvServiceMatching "IOHIDUserDevice" (Some (cf_next w))])).
Proof.
  intros Hok [Hname Haddress]%andb_true_iff. unfold createMatchingDictionary.
  rewrite bind_run. unfold IOServiceMatching at 1 2. rewrite Hok.
  cbn [fst snd].
  do 4 (rewrite bind_run, set_number_run;
        cbn [fst snd cf_heap cf_next matching_calls system_calls
             subscriptions trace]).
  rewrite bind_run, (set_string_run _ _ _ _ Hname).
  cbn [fst snd cf_heap cf_next matching_calls system_calls
       subscriptions trace].
  rewrite bind_run, (set_string_run _ _ _ _ Haddress).
  cbn [fst snd cf_heap cf_next matching_calls system_calls
       subscriptions trace].
  rewrite ret_run. by rewrite !alter_insert_eq.
Qed.

Lemma createMatchingDictionary_null (config : AppConfig) (w : World) :
  base_filter_ok env (matching_calls w) = false ->
  createMatchingDictionary env config w =
    (Returns None,
     mkWorld (cf_heap w) (cf_next w) (S (matching_calls w)) (system_calls w)
       (subscriptions w)
       (trace w ++ [EvServiceMatching "IOHIDUserDevice" None;
                    EvStderr ("DAEMON_ERROR: IOServiceMatching failed." +:+ nl)])).
Proof.
  intros Hko. unfold createMatchingDictionary.
  rewrite bind_run. unfold IOServiceMatching at 1 2. rewrite Hko. run.
  unfold fprintf_stderr, emit. simpl. by rewrite <- app_assoc.
Qed.

(** With a string field that is not UTF-8 the function does not get to
    its [return]: the base dictionary has been handed out, and the
    process dies in the store of that field. *)
Lemma createMatchingDictionary_halts (config : AppConfig) (w : World) :
  base_filter_ok env (matching_calls w) = true ->
  string_fields_utf8 config = false ->
  exists heap,
    createMatchingDictionary env config w =
      (Halts,
       mkWorld heap (S (cf_next w)) (S (matching_calls w)) (system_calls w)
         (subscriptions w)
         (trace w ++ [EvServiceMatching "IOHIDUserDevice" (Some (cf_next w))])).
Proof.
  intros Hok Hbad. unfold createMatchingDictionary.
  rewrite bind_run. unfold IOServiceMatching at 1 2. rewrite Hok.
  cbn [fst snd].
  do 4 (rewrite bind_run, set_number_run;
        cbn [fst snd cf_heap cf_next matching_calls system_calls
             subscriptions trace]).
  unfold string_fields_utf8 in Hbad.
  destruct (utf8_or_null (productName config)) eqn:Hname.
  - rewrite bind_run, (set_string_run _ _ _ _ Hname).
    cbn [fst snd cf_heap cf_next matching_calls system_calls
         subscriptions trace].
    rewrite bind_run, (set_string_halts _ _ _ _ Hbad).
    cbn [fst snd]. rewrite ret_run. eauto.
  - rewrite bind_run, (set_string_halts _ _ _ _ Hname).
    cbn [fst snd]. rewrite ret_run. eauto.
Qed.

End Compile.


Lemma number_constraint_Some (z : Z) (v : CFValue) :
  number_constraint z = Some v <-> z > 0 /\ v = CFNumber z.
Proof.
  unfold number_constraint. destruct (Z.gtb_spec z 0); split.
  - intros [= <-]. split; [lia | done].
  - by intros [_ ->].
  - discriminate.
  - intros [? _]. lia.
Qed.

Lemma lookup_add_number (key : string) (z : Z) (q : Dict) (k : string)
    (v : CFValue) :
  q !! key = None ->
  add_number key z q !! k = Some v <->
    (k = key /\ number_constraint z = Some v) \/ q !! k = Some v.
Proof.
  intros Hfresh. unfold add_number, number_constraint.
  destruct (z >? 0).
  - destruct (decide (k = key)) as [->|Hne].
    + rewrite lookup_insert_eq, Hfresh. intuition congruence.
    + rewrite lookup_insert_ne by done. intuition congruence.
  - intuition congruence.
Qed.

Lemma lookup_add_string (key : string) (field : option string) (q : Dict)
    (k : string) (v : CFValue) :
  q !! key = None ->
  add_string key field q !! k = Some v <->
    (k = key /\ CFString <$> field = Some v) \/ q !! k = Some v.
Proof.
  intros Hfresh. unfold add_string.
  destruct field as [s|]; simpl.
  - destruct (decide (k = key)) as [->|Hne].
    + rewrite lookup_insert_eq, Hfresh. intuition congruence.
    + rewrite lookup_insert_ne by done. intuition congruence.
  - intuition congruence.
Qed.

Lemma add_number_fresh (key : string) (z : Z) (q : Dict) (k : string) :
  k <> key -> q !! k = None -> add_number key z q !! k = None.
Proof.
  intros Hne Hq. unfold add_number. destruct (z >? 0); [|done].
  by rewrite lookup_insert_ne.
Qed.

Lemma add_string_fresh (key : string) (field : option string) (q : Dict)
    (k : string) :
  k <> key -> q !! k = None -> add_string key field q !! k = None.
Proof.
  intros Hne Hq. unfold add_string. destruct field; [|done].
  by rewrite lookup_insert_ne.
Qed.

Ltac fresh_key :=
  repeat first
    [ apply add_string_fresh; [discriminate|]
    | apply add_number_fresh; [discriminate|]
    | by apply lookup_singleton_ne ].

Lemma compiled_query_Some (config : AppConfig) (k : string) (v : CFValue) :
  compiled_query config !! k = Some v <->
    (k = "DeviceAddress" /\ CFString <$> deviceAddress config = Some v)
    \/ (k = "Product" /\ CFString <$> productName config = Some v)
    \/ (k = "PrimaryUsage" /\ number_constraint (usage config) = Some v)
    \/ (k = "PrimaryUsagePage" /\ number_constraint (usagePage config) = Some v)
    \/ (k = "ProductID" /\ number_constraint (productID config) = Some v)
    \/ (k = "VendorID" /\ number_constraint (vendorID config) = Some v)
    \/ (k = "IOProviderClass" /\ v = CFString "IOHIDUserDevice").
Proof.
  unfold compiled_query.
  rewrite lookup_add_string by fresh_key.
  rewrite lookup_add_string by fresh_key.
  rewrite lookup_add_number by fresh_key.
  rewrite lookup_add_number by fresh_key.
  rewrite lookup_add_number by fresh_key.
  rewrite lookup_add_number by fresh_key.
  rewrite lookup_singleton_Some. intuition congruence.
Qed.

Lemma matches_true (q : Dict) (d : Device) :
  matches q d = true <->
  forall k v, q !! k = Some v -> property_of d k = Some v.
Proof.
  unfold matches. rewrite bool_decide_eq_true. apply map_Forall_lookup.
Qed.




Lemma matches_compiled_query (config : AppConfig) (d : Device) :
  matches (compiled_query config) d = true <->
    dev_class d = "IOHIDUserDevice"
    /\ (vendorID config > 0 ->
        dev_props d !! "VendorID" = Some (CFNumber (vendorID config)))
    /\ (productID config > 0 ->
        dev_props d !! "ProductID" = Some (CFNumber (productID config)))
    /\ (usagePage config > 0 ->
        dev_props d !! "PrimaryUsagePage" = Some (CFNumber (usagePage config)))
    /\ (usage config > 0 ->
        dev_props d !! "PrimaryUsage" = Some (CFNumber (usage config)))
    /\ (forall s, productName config = Some s ->
        dev_props d !! "Product" = Some (CFString s))
    /\ (forall s, deviceAddress config = Some s ->
        dev_props d !! "DeviceAddress" = Some (CFString s)).
Proof.
  rewrite matches_true. split.
  - intros H. repeat split.
    + assert (property_of d "IOProviderClass"
              = Some (CFString "IOHIDUserDevice")) as Hc.
      { apply H, compiled_query_Some. tauto. }
      by injection Hc.
    + intros Hpos. apply (H "VendorID"), compiled_query_Some.
      rewrite !number_constraint_Some. tauto.
    + intros Hpos. apply (H "ProductID"), compiled_query_Some.
      rewrite !number_constraint_Some. tauto.
    + intros Hpos. apply (H "PrimaryUsagePage"), compiled_query_Some.
      rewrite !number_constraint_Some. tauto.
    + intros Hpos. apply (H "PrimaryUsage"), compiled_query_Some.
      rewrite !number_constraint_Some. tauto.
    + intros s Hs. apply (H "Product"), compiled_query_Some.
      rewrite Hs. simpl. tauto.
    + intros s Hs. apply (H "DeviceAddress"), compiled_query_Some.
      rewrite Hs. simpl. tauto.
  - intros (Hc & Hv & Hp & Hup & Hu & Hn & Ha) k v.
    rewrite compiled_query_Some, !number_constraint_Some.
    intros [H|[H|[H|[H|[H|[H|H]]]]]]; destruct H as [-> H].
    + destruct (deviceAddress config) as [s|]; [|discriminate].
      injection H as <-. by apply Ha.
    + destruct (productName config) as [s|]; [|discriminate].
      injection H as <-. by apply Hn.
    + destruct H as [Hpos ->]. by apply Hu.
    + destruct H as [Hpos ->]. by apply Hup.
    + destruct H as [Hpos ->]. by apply Hp.
    + destruct H as [Hpos ->]. by apply Hv.
    + subst v. unfold property_of. simpl. by rewrite Hc.
Qed.



(** The keyboard reports the vendor and the product of the example; the
    mouse reports another product. *)
Example example_selects_keyboard_only :
  matches (compiled_query config_example) keyboard = true
  /\ matches (compiled_query config_example) mouse = false.
Proof. by vm_compute. Qed.

(** ** One step of a sequence *)

Lemma bind_run_eq {A B} (m : M A) (k : A -> M B) (w w' : World) (a : A) :
  m w = (a, w') -> (m ≫= k) w = k a w'.
Proof. intros H. unfold mbind, M_bind. by rewrite H. Qed.

Lemma bind_congr {A B} (m1 m2 : M A) (k : A -> M B) (w : World) :
  m1 w = m2 w -> (m1 ≫= k) w = (m2 ≫= k) w.
Proof. intros H. unfold mbind, M_bind. by rewrite H. Qed.

Ltac exec_with tac := erewrite bind_run_eq; [| tac ].
Ltac exec := exec_with ltac:(reflexivity).
Ltac tidy :=
  cbn [fst snd cf_heap cf_next matching_calls system_calls subscriptions trace].

(** ** Reading a trace *)

Lemma released_app (t1 t2 : list Event) :
  released (t1 ++ t2) = released t1 ++ released t2.
Proof.
  induction t1 as [|e t1 IH]; [done|]. destruct e; simpl; by rewrite ?IH.
Qed.

Lemma script_calls_app (t1 t2 : list Event) :
  script_calls (t1 ++ t2) = script_calls t1 ++ script_calls t2.
Proof.
  induction t1 as [|e t1 IH]; [done|]. destruct e; simpl; by rewrite ?IH.
Qed.

Lemma launches_app (t1 t2 : list Event) :
  launches (t1 ++ t2) = launches t1 ++ launches t2.
Proof.
  induction t1 as [|e t1 IH]; [done|]. destruct e; simpl; by rewrite ?IH.
Qed.

(** ** The action runner and the callbacks *)

Section Callbacks.

Variable env : Provider.

Lemma run_script_run (scriptPath : option string) (w : World) :
  run_script env scriptPath w =
    (tt, mkWorld (cf_heap w) (cf_next w) (matching_calls w)
           (system_calls w + launch_count scriptPath) (subscriptions w)
           (trace w ++ run_script_events env scriptPath (system_calls w))).
Proof.
  unfold run_script, run_script_events.
  exec. destruct scriptPath as [path|].
  - exec. exec. exec. rewrite ret_run. tidy.
    fold (script_command path).
    rewrite <- !app_assoc. simpl. do 2 f_equal. lia.
  - rewrite ret_run. tidy. simpl. do 2 f_equal. lia.
Qed.

Lemma deviceConnected_run (config : AppConfig) (batch : list io_service_t)
    (w : World) :
  deviceConnected env config batch w =
    (tt, mkWorld (cf_heap w) (cf_next w) (matching_calls w)
           (system_calls w
            + length batch * launch_count (onConnectScript config))
           (subscriptions w)
           (trace w ++ callback_events env connect_banner
                         (onConnectScript config) batch (system_calls w))).
Proof.
  revert w. induction batch as [|service batch IH]; intros w.
  - simpl. rewrite ret_run, app_nil_r, Nat.add_0_r. by rewrite world_eta.
  - cbn [deviceConnected]. exec. exec. exec_with ltac:(apply run_script_run).
    exec. rewrite IH. tidy. fold connect_banner.
    rewrite <- !app_assoc. simpl. do 2 f_equal. lia.
Qed.

Lemma deviceDisconnected_run (config : AppConfig) (batch : list io_service_t)
    (w : World) :
  deviceDisconnected env config batch w =
    (tt, mkWorld (cf_heap w) (cf_next w) (matching_calls w)
           (system_calls w
            + length batch * launch_count (onDisconnectScript config))
           (subscriptions w)
           (trace w ++ callback_events env disconnect_banner
                         (onDisconnectScript config) batch (system_calls w))).
Proof.
  revert w. induction batch as [|service batch IH]; intros w.
  - simpl. rewrite ret_run, app_nil_r, Nat.add_0_r. by rewrite world_eta.
  - cbn [deviceDisconnected]. exec. exec. exec_with ltac:(apply run_script_run).
    exec. rewrite IH. tidy. fold disconnect_banner.
    rewrite <- !app_assoc. simpl. do 2 f_equal. lia.
Qed.

Lemma released_run_script_events (p : option string) (n : nat) :
  released (run_script_events env p n) = [].
Proof. by destruct p. Qed.

Lemma script_calls_run_script_events (p : option string) (n : nat) :
  script_calls (run_script_events env p n) = [p].
Proof. by destruct p. Qed.

Lemma launches_run_script_events (p : option string) (n : nat) :
  launches (run_script_events env p n) =
    match p with Some path => [script_command path] | None => [] end.
Proof. by destruct p. Qed.

Local Opaque run_script_events.

Lemma released_callback_events (banner : string) (script : option string)
    (batch : list io_service_t) (n : nat) :
  released (callback_events env banner script batch n) = batch.
Proof.
  revert n. induction batch as [|h batch IH]; intros n; [done|].
  simpl. rewrite released_app, released_run_script_events. simpl.
  by rewrite IH.
Qed.

Lemma script_calls_callback_events (banner : string) (script : option string)
    (batch : list io_service_t) (n : nat) :
  script_calls (callback_events env banner script batch n)
  = replicate (length batch) script.
Proof.
  revert n. induction batch as [|h batch IH]; intros n; [done|].
  simpl. rewrite script_calls_app, script_calls_run_script_events. simpl.
  by rewrite IH.
Qed.

Lemma launches_callback_events (banner : string) (script : option string)
    (batch : list io_service_t) (n : nat) :
  launches (callback_events env banner script batch n)
  = match script with
    | Some path => replicate (length batch) (script_command path)
    | None => []
    end.
Proof.
  revert n. induction batch as [|h batch IH]; intros n.
  - by destruct script.
  - simpl. rewrite launches_app, launches_run_script_events. simpl.
    rewrite IH. by destruct script.
Qed.

Local Transparent run_script_events.

End Callbacks.

(** C2: a callback handed a batch of N handles calls [run_script] N
    times, with the script of its event kind, and releases the N handles,
    each once and in delivery order, whatever [system] returns and also
    when no script is configured (then nothing is launched). *)
Theorem callback_runs_and_releases_once_per_handle
    (env : Provider) (config : AppConfig) (batch : list io_service_t)
    (w : World) :
  (exists evs,
      trace (deviceConnected env config batch w).2 = trace w ++ evs
      /\ script_calls evs = replicate (length batch) (onConnectScript config)
      /\ length (script_calls evs) = length batch
      /\ released evs = batch
      /\ launches evs = match onConnectScript config with
                        | Some path => replicate (length batch) (script_command path)
                        | None => []
                        end)
  /\ (exists evs,
      trace (deviceDisconnected env config batch w).2 = trace w ++ evs
      /\ script_calls evs = replicate (length batch) (onDisconnectScript config)
      /\ length (script_calls evs) = length batch
      /\ released evs = batch
      /\ launches evs = match onDisconnectScript config with
                        | Some path => replicate (length batch) (script_command path)
                        | None => []
                        end).
Proof.
  split.
  - rewrite deviceConnected_run. eexists. split; [reflexivity|].
    rewrite script_calls_callback_events, released_callback_events,
      launches_callback_events, length_replicate. done.
  - rewrite deviceDisconnected_run. eexists. split; [reflexivity|].
    rewrite script_calls_callback_events, released_callback_events,
      launches_callback_events, length_replicate. done.
Qed.

(** ** The command buffer of [run_script] *)

Lemma string_app_cons (c : ascii) (s1 s2 : string) :
  String c s1 +:+ s2 = String c (s1 +:+ s2).
Proof. reflexivity. Qed.

Lemma string_length_app (s1 s2 : string) :
  String.length (s1 +:+ s2) = (String.length s1 + String.length s2)%nat.
Proof. induction s1 as [|c s1 IH]; simpl; [done|]. by rewrite IH. Qed.

Lemma string_take_length (n : nat) (s : string) :
  String.length (string_take n s) = Nat.min n (String.length s).
Proof.
  revert s. induction n as [|n IH]; intros [|c s]; simpl; try done.
  by rewrite IH.
Qed.

Lemma string_take_all (n : nat) (s : string) :
  (String.length s <= n)%nat -> string_take n s = s.
Proof.
  revert s. induction n as [|n IH]; intros [|c s]; simpl; try done.
  - lia.
  - intros H. rewrite IH; [done | lia].
Qed.

Lemma string_take_app_short (n : nat) (s1 s2 : string) :
  (n <= String.length s1)%nat -> string_take n (s1 +:+ s2) = string_take n s1.
Proof.
  revert s1. induction n as [|n IH]; intros [|c s1]; simpl; try done.
  - lia.
  - intros H. rewrite IH; [done | lia].
Qed.

Lemma string_app_nil_r (s : string) : s +:+ EmptyString = s.
Proof.
  induction s as [|c s IH]; [done|]. by rewrite string_app_cons, IH.
Qed.

(** Quoting a path into a buffer of [S (S n)] bytes keeps the opening
    quote and the first [n] bytes of the path; the closing quote fits
    only when the path is shorter than [n]. *)
Lemma snprintf_quoted (n : nat) (path : string) :
  snprintf (S (S n)) (dq +:+ path +:+ dq) =
    dq +:+ string_take n path
       +:+ (if (String.length path <? n)%nat then dq else EmptyString).
Proof.
  unfold snprintf. replace (S (S n) - 1)%nat with (S n) by lia.
  change (dq +:+ path +:+ dq) with (String "034"%char (path +:+ dq)).
  cbn [string_take]. change (String "034"%char ?s) with (dq +:+ s). f_equal.
  destruct (Nat.ltb_spec (String.length path) n) as [Hlt|Hge].
  - rewrite string_take_all.
    + f_equal. symmetry. apply string_take_all. lia.
    + rewrite string_length_app. simpl. lia.
  - rewrite string_app_nil_r. by apply string_take_app_short.
Qed.

Lemma script_command_eq (path : string) :
  script_command path =
    dq +:+ string_take 2046 path
       +:+ (if (String.length path <? 2046)%nat then dq else EmptyString).
Proof. unfold script_command. apply (snprintf_quoted 2046). Qed.

Lemma script_command_length (path : string) :
  String.length (script_command path)
  = Nat.min (String.length path + 2) 2047.
Proof.
  unfold script_command, snprintf.
  rewrite string_take_length, !string_length_app. simpl String.length.
  replace (2048 - 1)%nat with 2047%nat by lia. lia.
Qed.

(** C9: the command handed to [system] for a path is the quoted path cut
    to the 2047 bytes the buffer can hold: the opening quote, the first
    2046 bytes of the path, and the closing quote only when the path has
    at most 2045 bytes.  It is the quoted path itself exactly for paths of
    at most 2045 bytes. *)
Theorem run_script_command_truncated_at_buffer
    (env : Provider) (path : string) (w : World) :
  (exists status,
      trace (run_script env (Some path) w).2 =
        trace w ++ [EvRunScript (Some path);
                    EvStdout ("DAEMON: Executing command: "
                              +:+ script_command path +:+ nl);
                    EvFlush;
                    EvSystem (script_command path) status])
  /\ script_command path = snprintf 2048 (dq +:+ path +:+ dq)
  /\ script_command path =
       dq +:+ string_take 2046 path
          +:+ (if (String.length path <=? 2045)%nat then dq else EmptyString)
  /\ String.length (script_command path)
     = Nat.min (String.length path + 2) 2047
  /\ (script_command path = dq +:+ path +:+ dq
      <-> (String.length path <= 2045)%nat).
Proof.
  split; [|split; [|split; [|split]]].
  - rewrite run_script_run. simpl. eauto.
  - done.
  - rewrite script_command_eq.
    destruct (Nat.ltb_spec (String.length path) 2046),
      (Nat.leb_spec (String.length path) 2045); done || lia.
  - apply script_command_length.
  - split.
    + intros H. pose proof (script_command_length path) as Hlen.
      rewrite H, !string_length_app in Hlen. simpl in Hlen. lia.
    + intros H. rewrite script_command_eq.
      destruct (Nat.ltb_spec (String.length path) 2046); [|lia].
      rewrite string_take_all; [done | lia].
Qed.

(** At the edge of the buffer: 2045 bytes fit with both quotes, 2046 bytes
    fit without the closing quote, and of 2047 bytes the last one is cut
    as well. *)
Example command_at_buffer_edge :
  script_command (path_of_length 2045)
  = dq +:+ path_of_length 2045 +:+ dq
  /\ script_command (path_of_length 2046) = dq +:+ path_of_length 2046
  /\ script_command (path_of_length 2047) = dq +:+ path_of_length 2046.
Proof. by vm_compute. Qed.

(** ** The argument loop *)

Lemma pair_ind (P : list string -> Prop) :
  P [] -> (forall x, P [x]) -> (forall x y l, P l -> P (x :: y :: l)) ->
  forall l, P l.
Proof.
  intros H0 H1 H2 l.
  assert (P l /\ forall x, P (x :: l)) as [H _]; [|exact H].
  induction l as [|a l [IH1 IH2]]; split; auto.
Qed.

Lemma set_flag_known (fl : Flag) (val : string) (c : AppConfig) :
  set_flag (flag_name fl) val c = Some (store fl val c).
Proof. by destruct fl. Qed.

Lemma set_flag_Some (flag val : string) (c c' : AppConfig) :
  set_flag flag val c = Some c' ->
  exists fl, flag = flag_name fl /\ c' = store fl val c.
Proof.
  unfold set_flag.
  repeat match goal with
  | |- context [String.eqb flag ?s] =>
      destruct (String.eqb_spec flag s) as [->|?]
  end; intros [= <-].
  - by exists FVendorID.
  - by exists FProductID.
  - by exists FUsagePage.
  - by exists FUsage.
  - by exists FName.
  - by exists FAddress.
  - by exists FOnConnect.
  - by exists FOnDisconnect.
Qed.

Lemma flag_name_known (fl : Flag) : flag_name fl ∈ known_flags.
Proof.
  unfold known_flags. apply list_elem_of_fmap. exists fl. split; [done|].
  destruct fl; unfold all_flags; repeat constructor.
Qed.

Lemma set_flag_None (flag val : string) (c : AppConfig) :
  set_flag flag val c = None <-> flag ∉ known_flags.
Proof.
  split.
  - intros H Hin. unfold known_flags in Hin.
    apply list_elem_of_fmap in Hin as (fl & -> & _).
    by rewrite set_flag_known in H.
  - intros Hnot. destruct (set_flag flag val c) as [c'|] eqn:E; [|done].
    apply set_flag_Some in E as (fl & -> & _).
    exfalso. apply Hnot, flag_name_known.
Qed.

Lemma set_flag_None_any (flag val val' : string) (c c' : AppConfig) :
  set_flag flag val c = None -> set_flag flag val' c' = None.
Proof. rewrite !set_flag_None. done. Qed.

Lemma config_after_cons (fl : Flag) (val : string) (c : AppConfig)
    (pairs : list (string * string)) :
  config_after c ((flag_name fl, val) :: pairs)
  = config_after (store fl val c) pairs.
Proof.
  unfold config_after, last_number, last_string. cbn [last_value].
  destruct (last_value "--vendor-id" pairs),
    (last_value "--product-id" pairs),
    (last_value "--usage-page" pairs),
    (last_value "--usage" pairs),
    (last_value "--name" pairs),
    (last_value "--address" pairs),
    (last_value "--on-connect" pairs),
    (last_value "--on-disconnect" pairs);
    by destruct fl.
Qed.

(** The loop leaves the world alone unless it stops on an error, and then
    it writes one line to the standard error stream. *)
Lemma main_parse_run (args : list string) :
  forall (c : AppConfig) (w : World),
    (exists c', main_parse args c w = (inr c', w))
    \/ (exists line,
          main_parse args c w =
            (inl 1, mkWorld (cf_heap w) (cf_next w) (matching_calls w)
                      (system_calls w) (subscriptions w)
                      (trace w ++ [EvStderr line]))).
Proof.
  induction args as [|flag|flag val rest IH] using pair_ind; intros c w.
  - left. by exists c.
  - right. eexists. cbn [main_parse]. exec. by rewrite ret_run.
  - cbn [main_parse]. destruct (set_flag flag val c) as [c'|]; [apply IH|].
    right. eexists. exec. by rewrite ret_run.
Qed.

(** The loop succeeds exactly on an even number of arguments whose flags
    are all known, and then every field holds the value of the last
    occurrence of its flag. *)
Lemma main_parse_inr (args : list string) :
  forall (c c' : AppConfig) (w : World),
    (main_parse args c w).1 = inr c' <->
      Nat.Even (length args)
      /\ Forall (fun p => p.1 ∈ known_flags) (flag_pairs args)
      /\ c' = config_after c (flag_pairs args).
Proof.
  induction args as [|flag|flag val rest IH] using pair_ind; intros c c' w.
  - cbn. split.
    + intros [= <-]. split; [by exists 0%nat|]. split; [constructor|].
      by destruct c.
    + intros (_ & _ & ->). by destruct c.
  - cbn [main_parse]. erewrite bind_run_eq by reflexivity. rewrite ret_run.
    split; [discriminate|]. intros ([k Hk] & _). simpl in Hk. lia.
  - cbn [main_parse flag_pairs length].
    destruct (set_flag flag val c) as [c1|] eqn:E.
    + apply set_flag_Some in E as (fl & -> & ->).
      rewrite IH, Forall_cons, config_after_cons. simpl.
      pose proof (flag_name_known fl) as Hk.
      assert (Nat.Even (S (S (length rest))) <-> Nat.Even (length rest)) as ->.
      { split; intros [k Hk']; [exists (k - 1)%nat | exists (S k)]; lia. }
      tauto.
    + erewrite bind_run_eq by reflexivity. rewrite ret_run.
      split; [discriminate|]. intros (_ & Hall & _).
      apply Forall_cons in Hall as [Hin _]. simpl in Hin.
      by apply set_flag_None in E.
Qed.

(** ** A flag given more than once *)

Lemma same_but_store (fl : Flag) (v : string) (c : AppConfig) :
  same_but fl (store fl v c) c.
Proof. intros v'. by destruct fl. Qed.

Lemma same_but_step (fl g : Flag) (u : string) (c1 c2 : AppConfig) :
  same_but fl c1 c2 -> same_but fl (store g u c1) (store g u c2).
Proof.
  intros H v. specialize (H v).
  destruct c1, c2, fl; simpl in H; injection H as ?; subst; by destruct g.
Qed.

Lemma main_parse_prefix (a : list (string * string)) (X Y : list string) :
  (forall c w, main_parse X c w = main_parse Y c w) ->
  forall c w,
    main_parse (flatten_pairs a ++ X) c w = main_parse (flatten_pairs a ++ Y) c w.
Proof.
  intros HXY. induction a as [|[g u] a IH]; intros c w; [apply HXY|].
  cbn [flatten_pairs app main_parse].
  destruct (set_flag g u c); [apply IH | done].
Qed.

Lemma main_parse_same_but (fl : Flag) (v : string) (rest : list string)
    (b : list (string * string)) :
  forall c1 c2 w,
    same_but fl c1 c2 ->
    main_parse (flatten_pairs b ++ flag_name fl :: v :: rest) c1 w
    = main_parse (flatten_pairs b ++ flag_name fl :: v :: rest) c2 w.
Proof.
  induction b as [|[g u] b IH]; intros c1 c2 w Hsame.
  - cbn [flatten_pairs app main_parse]. rewrite !set_flag_known.
    by rewrite (Hsame v).
  - cbn [flatten_pairs app main_parse].
    destruct (set_flag g u c1) as [c1'|] eqn:E.
    + apply set_flag_Some in E as (gl & -> & ->).
      rewrite set_flag_known. by apply IH, same_but_step.
    + by rewrite (set_flag_None_any g u u c1 c2 E).
Qed.

Lemma main_parse_overwritten (fl : Flag) (v1 v2 : string)
    (a b : list (string * string)) (rest : list string) (c : AppConfig)
    (w : World) :
  main_parse (flatten_pairs a ++ flag_name fl :: v1 ::
              flatten_pairs b ++ flag_name fl :: v2 :: rest) c w
  = main_parse (flatten_pairs a ++ flatten_pairs b ++
                flag_name fl :: v2 :: rest) c w.
Proof.
  apply main_parse_prefix. clear c w. intros c w.
  cbn [main_parse]. rewrite set_flag_known.
  apply main_parse_same_but, same_but_store.
Qed.

Lemma main_not_help_check (argv : list string) :
  (3 <= length argv)%nat ->
  ((length argv =? 1)%nat
   || ((length argv =? 2)%nat && String.eqb (nth 1 argv EmptyString) "--help"))%bool
  = false.
Proof.
  intros H.
  destruct (Nat.eqb_spec (length argv) 1); [lia|].
  destruct (Nat.eqb_spec (length argv) 2); [lia|]. done.
Qed.

(** C10: the loop takes the arguments two at a time, a flag and its
    value: it succeeds exactly on an even number of arguments whose flags
    are all known, and every field then holds the value of the last
    occurrence of its flag (zero or NULL if there is none).  An earlier
    value of a flag that occurs again later changes nothing in what
    [main] does. *)
Theorem flags_in_pairs_last_occurrence_wins
    (env : Provider) (args : list string) (w : World) :
  (forall config,
      (main_parse args config_zero w).1 = inr config <->
        Nat.Even (length args)
        /\ Forall (fun p => p.1 ∈ known_flags) (flag_pairs args)
        /\ config = config_after config_zero (flag_pairs args))
  /\ (forall prog fl v1 v2 a b rest,
        main env (prog :: flatten_pairs a ++ flag_name fl :: v1 ::
                  flatten_pairs b ++ flag_name fl :: v2 :: rest) w
        = main env (prog :: flatten_pairs a ++ flatten_pairs b ++
                    flag_name fl :: v2 :: rest) w).
Proof.
  split; [intros config; apply main_parse_inr|].
  intros prog fl v1 v2 a b rest. unfold main. cbv zeta.
  rewrite !main_not_help_check
    by (cbn [length]; rewrite ?length_app; cbn [length]; lia).
  cbn [tail]. apply bind_congr, main_parse_overwritten.
Qed.

(** ** Start-up validation *)

Lemma outputs_only_ret {A} (a : A) : outputs_only (mret a).
Proof. intros w. exists a, w, []. by rewrite app_nil_r. Qed.

Lemma outputs_only_bind {A B} (m : M A) (k : A -> M B) :
  outputs_only m -> (forall a, outputs_only (k a)) -> outputs_only (m ≫= k).
Proof.
  intros Hm Hk w.
  destruct (Hm w) as (a & w1 & e1 & Hr1 & Ht1 & Ho1).
  destruct (Hk a w1) as (b & w2 & e2 & Hr2 & Ht2 & Ho2).
  exists b, w2, (e1 ++ e2). split; [|split].
  - by rewrite (bind_run_eq m k w w1 a Hr1).
  - by rewrite Ht2, Ht1, <- app_assoc.
  - by rewrite forallb_app, Ho1, Ho2.
Qed.

Lemma outputs_only_printf (text : string) : outputs_only (printf text).
Proof. intros w. by eexists tt, _, [EvStdout text]. Qed.

Lemma outputs_only_print_help (prog_name : string) :
  outputs_only (print_help prog_name).
Proof.
  unfold print_help.
  repeat (apply outputs_only_bind; [apply outputs_only_printf | intros _]).
  apply outputs_only_printf.
Qed.

Lemma main_help_check (argv : list string) :
  ((length argv =? 1)%nat
   || ((length argv =? 2)%nat && String.eqb (nth 1 argv EmptyString) "--help"))%bool
  = true <-> help_request argv.
Proof.
  unfold help_request. split.
  - destruct argv as [|prog [|a [|b argv]]]; simpl; try discriminate.
    + eauto.
    + destruct (String.eqb_spec a "--help") as [->|]; [eauto | discriminate].
  - by intros [prog [-> | ->]].
Qed.

Lemma filter_check (c : AppConfig) :
  ((vendorID c =? 0) && (productID c =? 0)
   && is_null (productName c) && is_null (deviceAddress c)
   && (usagePage c =? 0) && (usage c =? 0))%bool = true
  <-> filter_spec_empty c.
Proof.
  unfold filter_spec_empty. rewrite !andb_true_iff, !Z.eqb_eq.
  destruct (productName c), (deviceAddress c); simpl; intuition congruence.
Qed.

Lemma action_check (c : AppConfig) :
  (is_null (onConnectScript c) && is_null (onDisconnectScript c))%bool = true
  <-> no_action c.
Proof.
  unfold no_action. rewrite andb_true_iff.
  destruct (onConnectScript c), (onDisconnectScript c); simpl;
    intuition congruence.
Qed.

Lemma last_value_absent_filter (pairs : list (string * string)) (c : AppConfig) :
  (forall f, f ∈ filter_flags -> last_value f pairs = None) ->
  filter_spec_empty c -> filter_spec_empty (config_after c pairs).
Proof.
  intros H (Hv & Hp & Hup & Hu & Hn & Ha).
  unfold filter_spec_empty, config_after, last_number, last_string,
    filter_flags in *.
  simpl. rewrite !H by (repeat constructor). done.
Qed.

Lemma last_value_absent_action (pairs : list (string * string)) (c : AppConfig) :
  (forall f, f ∈ action_flags -> last_value f pairs = None) ->
  no_action c -> no_action (config_after c pairs).
Proof.
  intros H (Hc & Hd).
  unfold no_action, config_after, last_string, action_flags in *.
  simpl. rewrite !H by (repeat constructor). done.
Qed.

Lemma main_help_run (env : Provider) (argv : list string) (w w' : World) :
  help_request argv ->
  print_help (nth 0 argv EmptyString) w = (tt, w') ->
  main env argv w = (Exited 0, w').
Proof.
  intros Hhelp Hrun. apply main_help_check in Hhelp. unfold main. cbv zeta.
  rewrite Hhelp. unfold mbind at 1, M_bind at 1. by rewrite Hrun.
Qed.

Lemma main_parse_error_run (env : Provider) (argv : list string)
    (w w' : World) (status : Z) :
  ~ help_request argv ->
  main_parse (tail argv) config_zero w = (inl status, w') ->
  main env argv w = (Exited status, w').
Proof.
  intros Hnot Hparse. rewrite <- main_help_check in Hnot.
  apply not_true_is_false in Hnot. unfold main. cbv zeta. rewrite Hnot.
  unfold mbind at 1, M_bind at 1. by rewrite Hparse.
Qed.

Lemma main_no_filter_run (env : Provider) (argv : list string)
    (w w' : World) (c : AppConfig) :
  ~ help_request argv ->
  main_parse (tail argv) config_zero w = (inr c, w') ->
  filter_spec_empty c ->
  main env argv w =
    (Exited 1,
     mkWorld (cf_heap w') (cf_next w') (matching_calls w') (system_calls w')
       (subscriptions w')
       (trace w' ++ [EvStderr ("Error: You must provide at least one filter. Use --help." +:+ nl)])).
Proof.
  intros Hnot Hparse Hempty. rewrite <- main_help_check in Hnot.
  apply not_true_is_false in Hnot. apply filter_check in Hempty.
  unfold main. cbv zeta. rewrite Hnot.
  unfold mbind at 1, M_bind at 1. rewrite Hparse, Hempty. done.
Qed.

Lemma main_no_action_run (env : Provider) (argv : list string)
    (w w' : World) (c : AppConfig) :
  ~ help_request argv ->
  main_parse (tail argv) config_zero w = (inr c, w') ->
  ~ filter_spec_empty c ->
  no_action c ->
  main env argv w =
    (Exited 1,
     mkWorld (cf_heap w') (cf_next w') (matching_calls w') (system_calls w')
       (subscriptions w')
       (trace w' ++ [EvStderr ("Error: You must provide at least one action script. Use --help." +:+ nl)])).
Proof.
  intros Hnot Hparse Hfilter Hnone. rewrite <- main_help_check in Hnot.
  apply not_true_is_false in Hnot.
  rewrite <- filter_check in Hfilter. apply not_true_is_false in Hfilter.
  apply action_check in Hnone.
  unfold main. cbv zeta. rewrite Hnot.
  unfold mbind at 1, M_bind at 1. rewrite Hparse, Hfilter, Hnone. done.
Qed.

(** With a configuration that passes both checks, [main] goes through
    the start-up sequence. *)
Lemma main_startup_run (env : Provider) (argv : list string)
    (w w' : World) (config : AppConfig) :
  ~ help_request argv ->
  main_parse (tail argv) config_zero w = (inr config, w') ->
  ~ filter_spec_empty config ->
  ~ no_action config ->
  main env argv w =
    (printf ("DAEMON: Starting up..." +:+ nl);;
     fflush_stdout;;
     emit EvRunLoopSource;;
     matchDict ← createMatchingDictionary env config;
     match matchDict with
     | Halts => mret Killed
     | Returns matchDict =>
         matchedIterator ←
           IOServiceAddMatchingNotification env kIOMatchedNotification
             matchDict;
         deviceConnected env config matchedIterator;;
         termDict ← createMatchingDictionary env config;
         match termDict with
         | Halts => mret Killed
         | Returns termDict =>
             terminatedIterator ←
               IOServiceAddMatchingNotification env kIOTerminatedNotification
                 termDict;
             deviceDisconnected env config terminatedIterator;;
             printf ("DAEMON: Monitoring started." +:+ nl);;
             fflush_stdout;;
             CFRunLoopRun env config;;
             mret Running
         end
     end) w'.
Proof.
  intros Hnot Hparse Hfilter Haction. rewrite <- main_help_check in Hnot.
  apply not_true_is_false in Hnot.
  rewrite <- filter_check in Hfilter. apply not_true_is_false in Hfilter.
  rewrite <- action_check in Haction. apply not_true_is_false in Haction.
  unfold main. cbv zeta. rewrite Hnot.
  unfold mbind at 1, M_bind at 1. rewrite Hparse, Hfilter, Haction. done.
Qed.

Lemma filter_spec_empty_dec (c : AppConfig) :
  filter_spec_empty c \/ ~ filter_spec_empty c.
Proof.
  rewrite <- filter_check. destruct (_ && _)%bool; [by left | by right].
Qed.

(** What [main] does with a command line that start-up validation turns
    down. *)
Lemma main_rejects (env : Provider) (argv : list string) (w : World) :
  (forall config,
      (main_parse (tail argv) config_zero w).1 = inr config ->
      filter_spec_empty config \/ no_action config) ->
  exists status w' evs,
    main env argv w = (Exited status, w')
    /\ (help_request argv -> status = 0)
    /\ (~ help_request argv -> status = 1)
    /\ trace w' = trace w ++ evs
    /\ forallb is_output evs = true.
Proof.
  intros Hbad.
  destruct ((length argv =? 1)%nat
            || ((length argv =? 2)%nat
                && String.eqb (nth 1 argv EmptyString) "--help"))%bool eqn:Hc.
  - apply main_help_check in Hc as Hhelp.
    destruct (outputs_only_print_help (nth 0 argv EmptyString) w)
      as ([] & w' & evs & Hr & Ht & Ho).
    exists 0, w', evs. rewrite (main_help_run env argv w w' Hhelp Hr). tauto.
  - assert (~ help_request argv) as Hnot.
    { rewrite <- main_help_check, Hc. done. }
    exists 1.
    destruct (main_parse_run (tail argv) config_zero w) as [[c Hp]|[line Hp]].
    + specialize (Hbad c). rewrite Hp in Hbad. specialize (Hbad eq_refl).
      destruct (filter_spec_empty_dec c) as [Hf|Hf].
      * rewrite (main_no_filter_run env argv w w c Hnot Hp Hf).
        eexists _, _. split; [reflexivity|]. cbn [trace].
        split; [tauto|]. split; [done|]. split; [reflexivity | done].
      * destruct Hbad as [Hb|Hb]; [done|].
        rewrite (main_no_action_run env argv w w c Hnot Hp Hf Hb).
        eexists _, _. split; [reflexivity|]. cbn [trace].
        split; [tauto|]. split; [done|]. split; [reflexivity | done].
    + rewrite (main_parse_error_run env argv w _ 1 Hnot Hp).
      eexists _, _. split; [reflexivity|]. cbn [trace].
      split; [tauto|]. split; [done|]. split; [reflexivity | done].
Qed.

(** C6 (as amended): a command line with an argument left without its
    value, with an unknown flag, with no filter flag, with no action flag,
    or whose filter fields or action fields all come out empty, makes
    [main] return before anything is asked of IOKit and before the run
    loop: it has written to the standard streams only.  The status is 1,
    except for the bare program name and for [--help] alone, which print
    the help text and return 0. *)
Theorem rejected_command_line_exits_before_subscribing
    (env : Provider) (argv : list string) :
  Nat.Odd (length (tail argv))
  \/ Exists (fun p => p.1 ∉ known_flags) (flag_pairs (tail argv))
  \/ (forall f, f ∈ filter_flags ->
      last_value f (flag_pairs (tail argv)) = None)
  \/ (forall f, f ∈ action_flags ->
      last_value f (flag_pairs (tail argv)) = None)
  \/ filter_spec_empty (config_after config_zero (flag_pairs (tail argv)))
  \/ no_action (config_after config_zero (flag_pairs (tail argv))) ->
  exists status,
    (main env argv boot).1 = Exited status
    /\ (help_request argv -> status = 0)
    /\ (~ help_request argv -> status = 1)
    /\ forallb is_output (trace (main env argv boot).2) = true.
Proof.
  intros Hbad.
  destruct (main_rejects env argv boot) as (status & w' & evs & Hrun & H0 & H1 & Ht & Ho).
  - intros config Hparse.
    apply main_parse_inr in Hparse as (Heven & Hknown & ->).
    destruct Hbad as [Hodd|[Hunk|[Hnf|[Hna|[Hfe|Hae]]]]].
    + exfalso. eapply Nat.Even_Odd_False; eassumption.
    + exfalso. apply Exists_exists in Hunk as (p & Hin & Hp).
      rewrite Forall_forall in Hknown. by apply Hp, Hknown.
    + left. by apply last_value_absent_filter.
    + right. by apply last_value_absent_action.
    + by left.
    + by right.
  - exists status. rewrite Hrun. cbn [fst snd]. rewrite Ht. tauto.
Qed.

Lemma rejected_command_line_witness :
  exists status,
    (main quiet ["hidkitd"; "--on-connect"; "/tmp/c.sh"] boot).1 = Exited status
    /\ (help_request ["hidkitd"; "--on-connect"; "/tmp/c.sh"] -> status = 0)
    /\ (~ help_request ["hidkitd"; "--on-connect"; "/tmp/c.sh"] -> status = 1)
    /\ forallb is_output
         (trace (main quiet ["hidkitd"; "--on-connect"; "/tmp/c.sh"] boot).2)
       = true.
Proof.
  apply (rejected_command_line_exits_before_subscribing quiet
           ["hidkitd"; "--on-connect"; "/tmp/c.sh"]).
  right; right; right; right; left. vm_compute. tauto.
Defined.

(** Against C6 as stated: the bare program name gives no filter and no
    action, and [--help] alone is a flag without a value; both return 0,
    not a non-zero status. *)
Lemma help_exits_zero_without_filter_or_action :
  (forall f, f ∈ filter_flags ->
     last_value f (flag_pairs (tail ["hidkitd"])) = None)
  /\ (forall f, f ∈ action_flags ->
     last_value f (flag_pairs (tail ["hidkitd"])) = None)
  /\ (main quiet ["hidkitd"] boot).1 = Exited 0
  /\ Nat.Odd (length (tail ["hidkitd"; "--help"]))
  /\ (main quiet ["hidkitd"; "--help"] boot).1 = Exited 0
  /\ ~ (exists status,
          status <> 0 /\ (main quiet ["hidkitd"] boot).1 = Exited status).
Proof.
  split; [done|]. split; [done|]. split; [by vm_compute|].
  split; [by exists 0%nat|]. split; [by vm_compute|].
  intros (status & Hne & Hrun). vm_compute in Hrun. congruence.
Qed.

(** ** Registration and the run loop *)

Section Startup.

Variable env : Provider.

Lemma add_notification_registered (kind : NotificationKind) (d : nat)
    (q : Dict) (w : World) :
  cf_heap w !! d = Some q ->
  registration env kind q = kIOReturnSuccess ->
  IOServiceAddMatchingNotification env kind (Some d) w =
    (dev_handle <$> filter (fun dev => matches q dev = true) (registry env kind),
     mkWorld (delete d (cf_heap w)) (cf_next w) (matching_calls w)
       (system_calls w) (subscriptions w ++ [(kind, q)])
       (trace w ++ [EvAddNotification kind (Some q) kIOReturnSuccess])).
Proof.
  intros Hd Hreg. unfold IOServiceAddMatchingNotification.
  cbn [mbind option_bind]. rewrite Hd, Hreg. done.
Qed.

Lemma add_notification_refused (kind : NotificationKind) (d : nat)
    (q : Dict) (w : World) :
  cf_heap w !! d = Some q ->
  registration env kind q <> kIOReturnSuccess ->
  IOServiceAddMatchingNotification env kind (Some d) w =
    (indeterminate env kind,
     mkWorld (delete d (cf_heap w)) (cf_next w) (matching_calls w)
       (system_calls w) (subscriptions w)
       (trace w ++ [EvAddNotification kind (Some q) (registration env kind q)])).
Proof.
  intros Hd Hreg. unfold IOServiceAddMatchingNotification.
  cbn [mbind option_bind]. rewrite Hd.
  destruct (Z.eqb_spec (registration env kind q) kIOReturnSuccess); done.
Qed.

Lemma add_notification_null (kind : NotificationKind) (w : World) :
  IOServiceAddMatchingNotification env kind None w =
    (indeterminate env kind,
     mkWorld (cf_heap w) (cf_next w) (matching_calls w) (system_calls w)
       (subscriptions w)
       (trace w ++ [EvAddNotification kind None kIOReturnBadArgument])).
Proof. reflexivity. Qed.

Lemma dispatch_run (config : AppConfig) (ev : DeviceEvent) (w : World) :
  exists w' post,
    dispatch env config ev w = (tt, w')
    /\ trace w' = trace w ++ post
    /\ subscriptions w' = subscriptions w
    /\ released post =
         if bool_decide (ev_kind ev ∈ (subscriptions w).*1)
         then ev_batch ev else [].
Proof.
  unfold dispatch. case_bool_decide.
  - destruct (ev_kind ev).
    + rewrite deviceConnected_run. eexists _, _. split; [reflexivity|].
      cbn [trace subscriptions]. split; [reflexivity|]. split; [done|].
      apply released_callback_events.
    + rewrite deviceDisconnected_run. eexists _, _. split; [reflexivity|].
      cbn [trace subscriptions]. split; [reflexivity|]. split; [done|].
      apply released_callback_events.
  - exists w, []. by rewrite app_nil_r.
Qed.

Lemma pump_run (config : AppConfig) (evs : list DeviceEvent) :
  forall w, exists w' post,
    pump env config evs w = (tt, w')
    /\ trace w' = trace w ++ post
    /\ subscriptions w' = subscriptions w
    /\ released post = delivered (subscriptions w) evs.
Proof.
  induction evs as [|ev evs IH]; intros w.
  - exists w, []. by rewrite app_nil_r.
  - cbn [pump].
    destruct (dispatch_run config ev w) as (w1 & p1 & Hr1 & Ht1 & Hs1 & Hp1).
    destruct (IH w1) as (w2 & p2 & Hr2 & Ht2 & Hs2 & Hp2).
    exists w2, (p1 ++ p2). rewrite (bind_run_eq _ _ _ _ _ Hr1).
    split; [done|]. split; [by rewrite Ht2, Ht1, <- app_assoc|].
    split; [by rewrite Hs2|].
    rewrite released_app, Hp1, Hp2, Hs1. unfold delivered.
    rewrite filter_cons. case_bool_decide as Hin.
    + rewrite decide_True by done. done.
    + rewrite decide_False by done. done.
Qed.

Lemma CFRunLoopRun_run (config : AppConfig) (w : World) :
  exists w' post,
    CFRunLoopRun env config w = (tt, w')
    /\ trace w' = trace w ++ EvRunLoopRun :: post
    /\ released post = delivered (subscriptions w) (deliveries env).
Proof.
  unfold CFRunLoopRun. exec.
  match goal with |- context [pump env config _ ?w1] =>
    destruct (pump_run config (deliveries env) w1)
      as (w' & post & Hr & Ht & Hs & Hp)
  end.
  exists w', post. split; [done|]. rewrite Ht. cbn [trace subscriptions] in *.
  by rewrite <- app_assoc.
Qed.

End Startup.

(** ** Start-up with a provider that grants everything *)

Lemma main_monitoring (env : Provider) (argv : list string)
    (config : AppConfig) (w : World) :
  ~ help_request argv ->
  main_parse (tail argv) config_zero w = (inr config, w) ->
  ~ filter_spec_empty config ->
  ~ no_action config ->
  string_fields_utf8 config = true ->
  base_filter_ok env (matching_calls w) = true ->
  base_filter_ok env (S (matching_calls w)) = true ->
  registration env kIOMatchedNotification (compiled_query config)
    = kIOReturnSuccess ->
  registration env kIOTerminatedNotification (compiled_query config)
    = kIOReturnSuccess ->
  exists w' post,
    main env argv w = (Running, w')
    /\ trace w' =
         trace w ++ startup_events env config (cf_next w) (system_calls w)
         ++ EvRunLoopRun :: post
    /\ released post =
         delivered (subscriptions w
                    ++ [(kIOMatchedNotification, compiled_query config);
                        (kIOTerminatedNotification, compiled_query config)])
           (deliveries env).
Proof.
  intros Hnot Hparse Hfilter Haction Hutf8 Hb1 Hb2 Hr1 Hr2.
  rewrite (main_startup_run env argv w w config Hnot Hparse Hfilter Haction).
  exec. exec. exec.
  exec_with ltac:(apply createMatchingDictionary_built; [exact Hb1 | exact Hutf8]).
  tidy.
  exec_with ltac:(apply add_notification_registered;
                  [apply lookup_insert_eq | exact Hr1]). tidy.
  exec_with ltac:(apply deviceConnected_run). tidy.
  exec_with ltac:(apply createMatchingDictionary_built; [exact Hb2 | exact Hutf8]).
  tidy.
  exec_with ltac:(apply add_notification_registered;
                  [apply lookup_insert_eq | exact Hr2]). tidy.
  exec_with ltac:(apply deviceDisconnected_run). tidy.
  exec. exec. tidy.
  match goal with |- context [(CFRunLoopRun env config ≫= _) ?w1] =>
    destruct (CFRunLoopRun_run env config w1) as (w' & post & Hr & Ht & Hp)
  end.
  exec_with ltac:(exact Hr). rewrite ret_run.
  exists w', post. split; [done|]. split.
  - rewrite Ht. cbn [trace]. unfold startup_events, present_matching.
    repeat rewrite <- app_assoc. reflexivity.
  - rewrite Hp. cbn [subscriptions]. by rewrite <- app_assoc.
Qed.

(** ** Catch-up *)

Lemma run_script_events_no_run_loop (env : Provider) (p : option string)
    (n : nat) :
  EvRunLoopRun ∉ run_script_events env p n.
Proof.
  unfold run_script_events. destruct p;
    rewrite ?not_elem_of_cons; repeat split; try done; apply not_elem_of_nil.
Qed.

Lemma callback_events_no_run_loop (env : Provider) (banner : string)
    (script : option string) (batch : list io_service_t) :
  forall n, EvRunLoopRun ∉ callback_events env banner script batch n.
Proof.
  induction batch as [|h batch IH]; intros n; [apply not_elem_of_nil|].
  cbn [callback_events].
  rewrite !not_elem_of_cons, not_elem_of_app, not_elem_of_cons.
  repeat split; try done;
    first [apply run_script_events_no_run_loop | apply IH].
Qed.

Lemma startup_events_no_run_loop (env : Provider) (config : AppConfig)
    (d n : nat) :
  EvRunLoopRun ∉ startup_events env config d n.
Proof.
  unfold startup_events.
  rewrite !not_elem_of_app, !not_elem_of_cons.
  repeat split; try done;
    try apply callback_events_no_run_loop; apply not_elem_of_nil.
Qed.

Lemma released_startup_events (env : Provider) (config : AppConfig)
    (d n : nat) :
  released (startup_events env config d n) =
    present_matching env kIOMatchedNotification config
    ++ present_matching env kIOTerminatedNotification config.
Proof.
  unfold startup_events.
  rewrite !released_app, !released_callback_events. simpl.
  by rewrite app_nil_r.
Qed.

Lemma script_calls_startup_events (env : Provider) (config : AppConfig)
    (d n : nat) :
  script_calls (startup_events env config d n) =
    replicate (length (present_matching env kIOMatchedNotification config))
      (onConnectScript config)
    ++ replicate (length (present_matching env kIOTerminatedNotification config))
         (onDisconnectScript config).
Proof.
  unfold startup_events.
  rewrite !script_calls_app, !script_calls_callback_events. simpl.
  by rewrite app_nil_r.
Qed.

Lemma launches_startup_events (env : Provider) (config : AppConfig)
    (d n : nat) :
  launches (startup_events env config d n) =
    match onConnectScript config with
    | Some path =>
        replicate (length (present_matching env kIOMatchedNotification config))
          (script_command path)
    | None => []
    end
    ++ match onDisconnectScript config with
       | Some path =>
           replicate
             (length (present_matching env kIOTerminatedNotification config))
             (script_command path)
       | None => []
       end.
Proof.
  unfold startup_events.
  rewrite !launches_app, !launches_callback_events. simpl.
  by rewrite app_nil_r.
Qed.

Lemma valid_not_help (argv : list string) (config : AppConfig) (w : World) :
  (main_parse (tail argv) config_zero w).1 = inr config ->
  ~ filter_spec_empty config ->
  ~ help_request argv.
Proof.
  intros Hparse Hfilter [prog [-> | ->]].
  - cbn in Hparse. injection Hparse as <-. by apply Hfilter.
  - cbn [tail main_parse] in Hparse.
    erewrite bind_run_eq in Hparse by reflexivity. discriminate Hparse.
Qed.

Lemma main_parse_inr_run (args : list string) (c c' : AppConfig) (w : World) :
  (main_parse args c w).1 = inr c' -> main_parse args c w = (inr c', w).
Proof.
  intros H. destruct (main_parse_run args c w) as [[c1 Hr]|[line Hr]];
    rewrite Hr in H |- *; [by injection H as -> | discriminate].
Qed.

(** C4: when the string filters are UTF-8 and both notifications are
    registered, start-up hands every registry entry that is already there
    and that the query selects to the callback of its kind, once, before
    the run loop is entered: [run_script] is called with the connect script
    once for each entry present for the arrival notification and with the
    disconnect script once for each entry present for the removal
    notification; the command of a configured script is handed to [system]
    once for each of these entries, and nothing else is; each handle is
    released once; and the notifications of the run loop are handled after
    that. *)
Theorem startup_drains_present_devices_once
    (env : Provider) (argv : list string) (config : AppConfig) :
  (main_parse (tail argv) config_zero boot).1 = inr config ->
  ~ filter_spec_empty config ->
  ~ no_action config ->
  string_fields_utf8 config = true ->
  base_filter_ok env 0 = true ->
  base_filter_ok env 1 = true ->
  registration env kIOMatchedNotification (compiled_query config)
    = kIOReturnSuccess ->
  registration env kIOTerminatedNotification (compiled_query config)
    = kIOReturnSuccess ->
  exists startup post,
    (main env argv boot).1 = Running
    /\ trace (main env argv boot).2 = startup ++ EvRunLoopRun :: post
    /\ (EvRunLoopRun ∉ startup)
    /\ released startup =
         present_matching env kIOMatchedNotification config
         ++ present_matching env kIOTerminatedNotification config
    /\ script_calls startup =
         replicate (length (present_matching env kIOMatchedNotification config))
           (onConnectScript config)
         ++ replicate
              (length (present_matching env kIOTerminatedNotification config))
              (onDisconnectScript config)
    /\ launches startup =
         match onConnectScript config with
         | Some path =>
             replicate
               (length (present_matching env kIOMatchedNotification config))
               (script_command path)
         | None => []
         end
         ++ match onDisconnectScript config with
            | Some path =>
                replicate
                  (length (present_matching env kIOTerminatedNotification
                             config))
                  (script_command path)
            | None => []
            end
    /\ released post =
         delivered [(kIOMatchedNotification, compiled_query config);
                    (kIOTerminatedNotification, compiled_query config)]
           (deliveries env).
Proof.
  intros Hparse Hfilter Haction Hutf8 Hb1 Hb2 Hr1 Hr2.
  pose proof (valid_not_help argv config boot Hparse Hfilter) as Hnot.
  apply main_parse_inr_run in Hparse.
  destruct (main_monitoring env argv config boot Hnot Hparse Hfilter Haction
              Hutf8 Hb1 Hb2 Hr1 Hr2) as (w' & post & Hrun & Ht & Hp).
  exists (startup_events env config 0 0), post.
  rewrite Hrun. cbn [fst snd]. rewrite Ht. cbn [trace boot app].
  split; [done|]. split; [done|].
  split; [apply startup_events_no_run_loop|].
  split; [apply released_startup_events|].
  split; [apply script_calls_startup_events|].
  split; [apply launches_startup_events|]. exact Hp.
Qed.

Lemma startup_drains_present_devices_witness :
  exists startup post,
    (main desk argv_example boot).1 = Running
    /\ trace (main desk argv_example boot).2 = startup ++ EvRunLoopRun :: post
    /\ (EvRunLoopRun ∉ startup)
    /\ released startup =
         present_matching desk kIOMatchedNotification config_example
         ++ present_matching desk kIOTerminatedNotification config_example
    /\ script_calls startup =
         replicate
           (length (present_matching desk kIOMatchedNotification config_example))
           (onConnectScript config_example)
         ++ replicate
              (length (present_matching desk kIOTerminatedNotification
                         config_example))
              (onDisconnectScript config_example)
    /\ launches startup = [script_command "/tmp/c.sh"]
    /\ released post =
         delivered [(kIOMatchedNotification, compiled_query config_example);
                    (kIOTerminatedNotification, compiled_query config_example)]
           (deliveries desk).
Proof.
  apply (startup_drains_present_devices_once desk argv_example config_example).
  - vm_compute. reflexivity.
  - intros [H _]. vm_compute in H. discriminate H.
  - intros [H _]. vm_compute in H. discriminate H.
  - reflexivity.
  - reflexivity.
  - reflexivity.
  - reflexivity.
  - reflexivity.
Defined.

(** Of the two devices on the desk, the keyboard is the one the example
    selects: it gets the one launch at start-up. *)
Example desk_catch_up :
  present_matching desk kIOMatchedNotification config_example = [7%positive]
  /\ launches (trace (main desk argv_example boot).2)
     = [script_command "/tmp/c.sh"; script_command "/tmp/c.sh"]
  /\ released (trace (main desk argv_example boot).2)
     = [7%positive; 11%positive; 7%positive].
Proof. by vm_compute. Qed.

(** ** Compiling twice *)



(** ** Start-up against a provider that fails *)

Lemma bind_total {A B} (m : M A) (k : A -> M B) (w : World) :
  exists a w1, (m ≫= k) w = k a w1.
Proof.
  destruct (m w) as [a w1] eqn:E. exists a, w1. by apply bind_run_eq.
Qed.

Section Outcome.

Variable env : Provider.

Lemma add_notification_frame (kind : NotificationKind) (md : option nat)
    (w : World) :
  exists it w',
    IOServiceAddMatchingNotification env kind md w = (it, w')
    /\ matching_calls w' = matching_calls w.
Proof.
  unfold IOServiceAddMatchingNotification.
  destruct (md ≫= _) as [q|]; [|by eexists _, _].
  destruct (registration env kind q =? kIOReturnSuccess); by eexists _, _.
Qed.

(** [createMatchingDictionary] returns unless it was given the base
    dictionary and a string field that is not UTF-8. *)
Lemma createMatchingDictionary_cases (config : AppConfig) (w : World) :
  (exists md w1,
      createMatchingDictionary env config w = (Returns md, w1)
      /\ matching_calls w1 = S (matching_calls w)
      /\ (string_fields_utf8 config = true
          \/ base_filter_ok env (matching_calls w) = false))
  \/ (exists w1,
        createMatchingDictionary env config w = (Halts, w1)
        /\ string_fields_utf8 config = false
        /\ base_filter_ok env (matching_calls w) = true).
Proof.
  destruct (base_filter_ok env (matching_calls w)) eqn:Hb.
  - destruct (string_fields_utf8 config) eqn:Hu.
    + left. eexists _, _.
      split; [by apply createMatchingDictionary_built|]. split; [done | by left].
    + right. destruct (createMatchingDictionary_halts env config w Hb Hu)
        as (heap & Hr).
      eexists. split; [exact Hr | done].
  - left. eexists _, _.
    split; [by apply createMatchingDictionary_null|]. split; [done | by right].
Qed.

(** Once the command line has passed both checks, [main] either gets to
    the run loop or dies in [createMatchingDictionary]; which of the two
    depends on the string fields and on [IOServiceMatching] only. *)
Lemma main_valid_outcome (argv : list string) (config : AppConfig)
    (w : World) :
  (main_parse (tail argv) config_zero w).1 = inr config ->
  ~ filter_spec_empty config ->
  ~ no_action config ->
  exists w',
    (main env argv w = (Running, w')
     /\ EvRunLoopRun ∈ trace w'
     /\ (string_fields_utf8 config = true
         \/ (base_filter_ok env (matching_calls w) = false
             /\ base_filter_ok env (S (matching_calls w)) = false)))
    \/ (main env argv w = (Killed, w')
        /\ string_fields_utf8 config = false
        /\ (base_filter_ok env (matching_calls w) = true
            \/ base_filter_ok env (S (matching_calls w)) = true)).
Proof.
  intros Hparse Hfilter Haction.
  pose proof (valid_not_help argv config w Hparse Hfilter) as Hnot.
  apply main_parse_inr_run in Hparse.
  rewrite (main_startup_run env argv w w config Hnot Hparse Hfilter Haction).
  exec. exec. exec. tidy.
  match goal with |- context [(createMatchingDictionary env config ≫= _) ?w0] =>
    destruct (createMatchingDictionary_cases config w0)
      as [(md & w1 & Hc1 & Hm1 & Hok1) | (w1 & Hc1 & Hu1 & Hb1)]
  end; cbn [matching_calls] in *.
  2: { exists w1. right. exec_with ltac:(exact Hc1).
       split; [reflexivity | tauto]. }
  exec_with ltac:(exact Hc1). cbv beta iota.
  destruct (add_notification_frame kIOMatchedNotification md w1)
    as (it1 & w2 & Ha1 & Hm2).
  exec_with ltac:(exact Ha1).
  exec_with ltac:(apply deviceConnected_run). tidy.
  match goal with |- context [(createMatchingDictionary env config ≫= _) ?w0] =>
    destruct (createMatchingDictionary_cases config w0)
      as [(td & w3 & Hc2 & Hm3 & Hok2) | (w3 & Hc2 & Hu2 & Hb2)]
  end; cbn [matching_calls] in *; rewrite Hm2, Hm1 in *.
  2: { exists w3. right. exec_with ltac:(exact Hc2).
       split; [reflexivity | tauto]. }
  exec_with ltac:(exact Hc2). cbv beta iota.
  destruct (add_notification_frame kIOTerminatedNotification td w3)
    as (it2 & w4 & Ha2 & Hm4).
  exec_with ltac:(exact Ha2).
  exec_with ltac:(apply deviceDisconnected_run). tidy.
  exec. exec. tidy.
  match goal with |- context [(CFRunLoopRun env config ≫= _) ?w0] =>
    destruct (CFRunLoopRun_run env config w0) as (w' & post & Hr & Ht & _)
  end.
  exists w'. left. exec_with ltac:(exact Hr). rewrite ret_run.
  split; [done|]. split.
  - rewrite Ht. apply elem_of_app. right. apply elem_of_cons. by left.
  - destruct Hok1 as [?|Hk1]; [by left|].
    destruct Hok2 as [?|Hk2]; [by left|]. by right.
Qed.

End Outcome.

(** C1: with a valid command line, [main] reaches [CFRunLoopRun] although
    [IOServiceMatching] returned NULL both times (the NULL is reported
    on the standard error stream and then handed to
    [IOServiceAddMatchingNotification]), and also although both
    registrations were refused. *)
Theorem main_enters_run_loop_after_startup_errors :
  (main no_base_filter argv_example boot).1 = Running
  /\ trace (main no_base_filter argv_example boot).2 =
       [EvStdout ("DAEMON: Starting up..." +:+ nl); EvFlush; EvRunLoopSource;
        EvServiceMatching "IOHIDUserDevice" None;
        EvStderr ("DAEMON_ERROR: IOServiceMatching failed." +:+ nl);
        EvAddNotification kIOMatchedNotification None kIOReturnBadArgument;
        EvServiceMatching "IOHIDUserDevice" None;
        EvStderr ("DAEMON_ERROR: IOServiceMatching failed." +:+ nl);
        EvAddNotification kIOTerminatedNotification None kIOReturnBadArgument;
        EvStdout ("DAEMON: Monitoring started." +:+ nl); EvFlush;
        EvRunLoopRun]
  /\ (main refusing argv_example boot).1 = Running
  /\ trace (main refusing argv_example boot).2 =
       [EvStdout ("DAEMON: Starting up..." +:+ nl); EvFlush; EvRunLoopSource;
        EvServiceMatching "IOHIDUserDevice" (Some 0%nat);
        EvAddNotification kIOMatchedNotification
          (Some (compiled_query config_example)) kIOReturnError;
        EvServiceMatching "IOHIDUserDevice" (Some 1%nat);
        EvAddNotification kIOTerminatedNotification
          (Some (compiled_query config_example)) kIOReturnError;
        EvStdout ("DAEMON: Monitoring started." +:+ nl); EvFlush;
        EvRunLoopRun].
Proof. by vm_compute. Qed.

(** C7: [--vendor-id -5] passes the check for at least one filter, since
    the field is not zero; the dictionary then carries no constraint
    besides the class, since the field is not positive, and the daemon
    starts and runs the connect script for every device of the class. *)
Theorem negative_filter_passes_validation :
  (main_parse (tail argv_negative) config_zero boot).1 = inr config_negative
  /\ ~ filter_spec_empty config_negative
  /\ (main desk argv_negative boot).1 = Running
  /\ compiled_query config_negative
     = {[ "IOProviderClass" := CFString "IOHIDUserDevice" ]}
  /\ present_matching desk kIOMatchedNotification config_negative
     = [7%positive; 9%positive]
  /\ released (trace (main desk argv_negative boot).2)
     = [7%positive; 9%positive; 11%positive; 7%positive].
Proof.
  split; [by vm_compute|]. split; [by intros [H _]|].
  split; [by vm_compute|]. split; [by vm_compute|].
  split; by vm_compute.
Qed.

(** ** A launch that fails changes nothing else *)

Lemma released_erase (tr : list Event) :
  released (erase_status <$> tr) = released tr.
Proof. induction tr as [|[] tr IH]; cbn; by rewrite ?IH. Qed.

Lemma launches_erase (tr : list Event) :
  launches (erase_status <$> tr) = launches tr.
Proof. induction tr as [|[] tr IH]; cbn; by rewrite ?IH. Qed.

Lemma script_calls_erase (tr : list Event) :
  script_calls (erase_status <$> tr) = script_calls tr.
Proof. induction tr as [|[] tr IH]; cbn; by rewrite ?IH. Qed.

Lemma written_erase (tr : list Event) :
  written (erase_status <$> tr) = written tr.
Proof. induction tr as [|[] tr IH]; cbn; by rewrite ?IH. Qed.

Lemma same_but_status_refl (w : World) : same_but_status w w.
Proof. by repeat split. Qed.

Lemma alike_ret {A} (a : A) : alike (mret a) (mret a).
Proof. intros w w' H. by exists a, w, w'. Qed.

Lemma alike_bind {A B} (m m' : M A) (k k' : A -> M B) :
  alike m m' -> (forall a, alike (k a) (k' a)) -> alike (m ≫= k) (m' ≫= k').
Proof.
  intros Hm Hk w w' H.
  destruct (Hm w w' H) as (a & v & v' & Hr & Hr' & Hv).
  destruct (Hk a v v' Hv) as (b & u & u' & Hs & Hs' & Hu).
  exists b, u, u'.
  by rewrite (bind_run_eq m k w v a Hr), (bind_run_eq m' k' w' v' a Hr').
Qed.

Lemma alike_emit (e : Event) : alike (emit e) (emit e).
Proof.
  intros w w' (H1 & H2 & H3 & H4 & H5 & H6).
  eexists tt, _, _. split; [reflexivity|]. split; [reflexivity|].
  unfold same_but_status. cbn [cf_heap cf_next matching_calls system_calls
                               subscriptions trace].
  by rewrite !fmap_app, H6.
Qed.

Lemma alike_CFDictionarySetValue (d : nat) (key : string) (value : CFValue) :
  alike (CFDictionarySetValue d key value) (CFDictionarySetValue d key value).
Proof.
  intros w w' (H1 & H2 & H3 & H4 & H5 & H6).
  eexists tt, _, _. split; [reflexivity|]. split; [reflexivity|].
  unfold same_but_status. cbn [cf_heap cf_next matching_calls system_calls
                               subscriptions trace].
  by rewrite H1.
Qed.

Lemma alike_print_help (prog_name : string) :
  alike (print_help prog_name) (print_help prog_name).
Proof.
  unfold print_help, printf.
  repeat (apply alike_bind; [apply alike_emit | intros _]).
  apply alike_emit.
Qed.

Lemma alike_main_parse (args : list string) :
  forall c, alike (main_parse args c) (main_parse args c).
Proof.
  induction args as [|flag|flag val rest IH] using pair_ind; intros c.
  - apply alike_ret.
  - cbn [main_parse]. apply alike_bind; [apply alike_emit|].
    intros _. apply alike_ret.
  - cbn [main_parse]. destruct (set_flag flag val c); [apply IH|].
    apply alike_bind; [apply alike_emit|]. intros _. apply alike_ret.
Qed.

Section Alike.

Variables env env' : Provider.
Hypothesis Henv : same_but_exit_status env env'.

Lemma alike_system (command : string) :
  alike (system env command;; mret tt) (system env' command;; mret tt).
Proof.
  intros w w' (H1 & H2 & H3 & H4 & H5 & H6).
  eexists tt, _, _. split; [reflexivity|]. split; [reflexivity|].
  unfold same_but_status. cbn [cf_heap cf_next matching_calls system_calls
                               subscriptions trace].
  by rewrite !fmap_app, H6, H4.
Qed.

Lemma alike_run_script (scriptPath : option string) :
  alike (run_script env scriptPath) (run_script env' scriptPath).
Proof.
  unfold run_script. apply alike_bind; [apply alike_emit|]. intros _.
  destruct scriptPath as [path|]; [|apply alike_ret].
  apply alike_bind; [apply alike_emit|]. intros _.
  apply alike_bind; [apply alike_emit|]. intros _.
  apply alike_system.
Qed.

Lemma alike_deviceConnected (config : AppConfig) (batch : list io_service_t) :
  alike (deviceConnected env config batch) (deviceConnected env' config batch).
Proof.
  induction batch as [|h batch IH]; [apply alike_ret|].
  cbn [deviceConnected].
  apply alike_bind; [apply alike_emit|]. intros _.
  apply alike_bind; [apply alike_emit|]. intros _.
  apply alike_bind; [apply alike_run_script|]. intros _.
  apply alike_bind; [apply alike_emit|]. intros _. apply IH.
Qed.

Lemma alike_deviceDisconnected (config : AppConfig)
    (batch : list io_service_t) :
  alike (deviceDisconnected env config batch)
    (deviceDisconnected env' config batch).
Proof.
  induction batch as [|h batch IH]; [apply alike_ret|].
  cbn [deviceDisconnected].
  apply alike_bind; [apply alike_emit|]. intros _.
  apply alike_bind; [apply alike_emit|]. intros _.
  apply alike_bind; [apply alike_run_script|]. intros _.
  apply alike_bind; [apply alike_emit|]. intros _. apply IH.
Qed.

Lemma alike_IOServiceMatching (name : string) :
  alike (IOServiceMatching env name) (IOServiceMatching env' name).
Proof.
  destruct Henv as (Hb & _).
  intros w w' (H1 & H2 & H3 & H4 & H5 & H6).
  unfold IOServiceMatching. rewrite <- Hb, <- H3.
  destruct (base_filter_ok env (matching_calls w)).
  - eexists _, _, _. split; [reflexivity|]. rewrite <- H2.
    split; [reflexivity|].
    unfold same_but_status. cbn [cf_heap cf_next matching_calls system_calls
                                 subscriptions trace].
    by rewrite !fmap_app, H6, H1.
  - eexists _, _, _. split; [reflexivity|]. split; [reflexivity|].
    unfold same_but_status. cbn [cf_heap cf_next matching_calls system_calls
                                 subscriptions trace].
    by rewrite !fmap_app, H6.
Qed.

Lemma alike_set_string (d : nat) (key : string) (field : option string) :
  alike (set_string d key field) (set_string d key field).
Proof.
  unfold set_string. destruct field as [s|]; [|apply alike_ret].
  destruct (CFStringCreateWithCString s); [|apply alike_ret].
  apply alike_bind; [apply alike_CFDictionarySetValue|]. intros _.
  apply alike_ret.
Qed.

Lemma alike_createMatchingDictionary (config : AppConfig) :
  alike (createMatchingDictionary env config)
    (createMatchingDictionary env' config).
Proof.
  unfold createMatchingDictionary.
  apply alike_bind; [apply alike_IOServiceMatching|]. intros [d|].
  - unfold when.
    do 4 (apply alike_bind;
          [destruct (_ >? 0); [apply alike_CFDictionarySetValue
                              | apply alike_ret]
          | intros _]).
    apply alike_bind; [apply alike_set_string|]. intros [[]|]; [|apply alike_ret].
    apply alike_bind; [apply alike_set_string|]. intros [[]|]; apply alike_ret.
  - apply alike_bind; [apply alike_emit|]. intros _. apply alike_ret.
Qed.

Lemma alike_IOServiceAddMatchingNotification (kind : NotificationKind)
    (matching : option nat) :
  alike (IOServiceAddMatchingNotification env kind matching)
    (IOServiceAddMatchingNotification env' kind matching).
Proof.
  destruct Henv as (_ & Hreg & Hdev & Hind & _).
  intros w w' (H1 & H2 & H3 & H4 & H5 & H6).
  unfold IOServiceAddMatchingNotification.
  rewrite <- H1, <- Hind, <- Hdev.
  destruct (matching ≫= (fun d => cf_heap w !! d)) as [q|].
  - rewrite <- Hreg. destruct (registration env kind q =? kIOReturnSuccess).
    + eexists _, _, _. split; [reflexivity|]. split; [reflexivity|].
      unfold same_but_status.
      cbn [cf_heap cf_next matching_calls system_calls subscriptions trace].
      by rewrite !fmap_app, H6, H5.
    + eexists _, _, _. split; [reflexivity|]. split; [reflexivity|].
      unfold same_but_status.
      cbn [cf_heap cf_next matching_calls system_calls subscriptions trace].
      by rewrite !fmap_app, H6.
  - eexists _, _, _. split; [reflexivity|]. split; [reflexivity|].
    unfold same_but_status.
    cbn [cf_heap cf_next matching_calls system_calls subscriptions trace].
    by rewrite !fmap_app, H6.
Qed.

Lemma alike_dispatch (config : AppConfig) (ev : DeviceEvent) :
  alike (dispatch env config ev) (dispatch env' config ev).
Proof.
  intros w w' H. unfold dispatch.
  destruct H as (H1 & H2 & H3 & H4 & H5 & H6). rewrite <- H5.
  assert (same_but_status w w') as H by done.
  case_bool_decide.
  - destruct (ev_kind ev);
      [by apply alike_deviceConnected | by apply alike_deviceDisconnected].
  - by exists tt, w, w'.
Qed.

Lemma alike_pump (config : AppConfig) (evs : list DeviceEvent) :
  alike (pump env config evs) (pump env' config evs).
Proof.
  induction evs as [|ev evs IH]; [apply alike_ret|].
  cbn [pump]. apply alike_bind; [apply alike_dispatch|]. intros _. apply IH.
Qed.

Lemma alike_CFRunLoopRun (config : AppConfig) :
  alike (CFRunLoopRun env config) (CFRunLoopRun env' config).
Proof.
  unfold CFRunLoopRun. apply alike_bind; [apply alike_emit|]. intros _.
  destruct Henv as (_ & _ & _ & _ & <-). apply alike_pump.
Qed.

Lemma alike_main (argv : list string) : alike (main env argv) (main env' argv).
Proof.
  unfold main. cbv zeta. destruct (_ || _)%bool.
  - apply alike_bind; [apply alike_print_help|]. intros _. apply alike_ret.
  - apply alike_bind; [apply alike_main_parse|]. intros [status|config].
    + apply alike_ret.
    + destruct (_ && _ && _ && _ && _ && _)%bool.
      { apply alike_bind; [apply alike_emit|]. intros _. apply alike_ret. }
      destruct (_ && _)%bool.
      { apply alike_bind; [apply alike_emit|]. intros _. apply alike_ret. }
      apply alike_bind; [apply alike_emit|]. intros _.
      apply alike_bind; [apply alike_emit|]. intros _.
      apply alike_bind; [apply alike_emit|]. intros _.
      apply alike_bind; [apply alike_createMatchingDictionary|].
      intros [matchDict|]; [|apply alike_ret].
      apply alike_bind; [apply alike_IOServiceAddMatchingNotification|].
      intros matchedIterator.
      apply alike_bind; [apply alike_deviceConnected|]. intros _.
      apply alike_bind; [apply alike_createMatchingDictionary|].
      intros [termDict|]; [|apply alike_ret].
      apply alike_bind; [apply alike_IOServiceAddMatchingNotification|].
      intros terminatedIterator.
      apply alike_bind; [apply alike_deviceDisconnected|]. intros _.
      apply alike_bind; [apply alike_emit|]. intros _.
      apply alike_bind; [apply alike_emit|]. intros _.
      apply alike_bind; [apply alike_CFRunLoopRun|]. intros _.
      apply alike_ret.
Qed.

End Alike.

(** C5 (as amended): the status [system] returns reaches nobody.  Two
    runs of [main] that differ only in the statuses of the scripts end the
    same way, write the same to the standard streams, launch the same
    commands and release the same handles; their traces differ in the
    recorded statuses only.  Of a launch the daemon writes the command
    line, before [system] is called, and nothing after it. *)
Theorem launch_status_is_discarded
    (env env' : Provider) (argv : list string) :
  same_but_exit_status env env' ->
  (main env argv boot).1 = (main env' argv boot).1
  /\ erase_status <$> trace (main env argv boot).2
     = erase_status <$> trace (main env' argv boot).2
  /\ written (trace (main env argv boot).2)
     = written (trace (main env' argv boot).2)
  /\ launches (trace (main env argv boot).2)
     = launches (trace (main env' argv boot).2)
  /\ released (trace (main env argv boot).2)
     = released (trace (main env' argv boot).2)
  /\ (forall path w,
        trace (run_script env (Some path) w).2 =
          trace w ++ [EvRunScript (Some path);
                      EvStdout ("DAEMON: Executing command: "
                                +:+ script_command path +:+ nl);
                      EvFlush;
                      EvSystem (script_command path)
                        (exit_status env (system_calls w)
                           (script_command path))]).
Proof.
  intros Henv.
  destruct (alike_main env env' Henv argv boot boot (same_but_status_refl boot))
    as (a & v & v' & Hr & Hr' & Hv).
  rewrite Hr, Hr'. cbn [fst snd].
  destruct Hv as (_ & _ & _ & _ & _ & Ht).
  split; [done|]. split; [done|].
  split; [by rewrite <- (written_erase (trace v)), Ht, written_erase|].
  split; [by rewrite <- (launches_erase (trace v)), Ht, launches_erase|].
  split; [by rewrite <- (released_erase (trace v)), Ht, released_erase|].
  intros path w. by rewrite run_script_run.
Qed.

Lemma launch_status_is_discarded_witness :
  same_but_exit_status failing desk
  /\ (main failing argv_example boot).1 = (main desk argv_example boot).1
  /\ written (trace (main failing argv_example boot).2)
     = written (trace (main desk argv_example boot).2)
  /\ released (trace (main failing argv_example boot).2)
     = released (trace (main desk argv_example boot).2).
Proof.
  assert (same_but_exit_status failing desk) as H by (by repeat split).
  split; [exact H|].
  destruct (launch_status_is_discarded failing desk argv_example H)
    as (H1 & _ & H3 & _ & H5 & _).
  auto.
Defined.

(** Against C5 as stated: the script exits with status 1; [run_script]
    has written the command line before the launch, exactly as for a
    script that succeeds, and writes nothing once [system] has returned. *)
Lemma failed_launch_is_not_logged :
  trace (run_script failing (Some "/tmp/c.sh") boot).2 =
    [EvRunScript (Some "/tmp/c.sh");
     EvStdout ("DAEMON: Executing command: " +:+ dq +:+ "/tmp/c.sh" +:+ dq
               +:+ nl);
     EvFlush;
     EvSystem (dq +:+ "/tmp/c.sh" +:+ dq) 256]
  /\ written (trace (run_script failing (Some "/tmp/c.sh") boot).2)
     = written (trace (run_script desk (Some "/tmp/c.sh") boot).2)
  /\ ~ failure_logged (trace (run_script failing (Some "/tmp/c.sh") boot).2).
Proof.
  split; [by vm_compute|]. split; [by vm_compute|].
  intros Hlog.
  destruct (Hlog [EvRunScript (Some "/tmp/c.sh");
                  EvStdout ("DAEMON: Executing command: " +:+ dq
                            +:+ "/tmp/c.sh" +:+ dq +:+ nl);
                  EvFlush]
              (dq +:+ "/tmp/c.sh" +:+ dq) 256 [])
    as (e & He & _); [by vm_compute | done |].
  by apply elem_of_nil in He.
Qed.

(** * Further properties *)

(** ** What a rejected command line is told *)

Lemma long_not_help (argv : list string) :
  (3 <= length argv)%nat -> ~ help_request argv.
Proof. intros Hlen [prog [-> | ->]]; simpl in Hlen; lia. Qed.

Lemma no_action_dec (c : AppConfig) : no_action c \/ ~ no_action c.
Proof.
  rewrite <- action_check. destruct (_ && _)%bool; [by left | by right].
Qed.

Lemma main_parse_known_prefix (a : list (Flag * string)) (X : list string)
    (w : World) (r : (Z + AppConfig) * World) :
  (forall c, main_parse X c w = r) ->
  forall c, main_parse (flatten_pairs (known_pairs a) ++ X) c w = r.
Proof.
  intros HX. induction a as [|[fl v] a IH]; intros c; [apply HX|].
  cbn [known_pairs fmap list_fmap flatten_pairs app main_parse fst snd].
  rewrite set_flag_known. apply IH.
Qed.

Lemma main_parse_unknown (flag val : string) (rest : list string)
    (c : AppConfig) (w : World) :
  flag ∉ known_flags ->
  main_parse (flag :: val :: rest) c w
  = (inl 1, with_stderr w (unknown_flag_line flag)).
Proof.
  intros Hunk. cbn [main_parse].
  rewrite (proj2 (set_flag_None flag val c) Hunk).
  exec. by rewrite ret_run.
Qed.

Lemma main_parse_dangling (last : string) (c : AppConfig) (w : World) :
  main_parse [last] c w = (inl 1, with_stderr w (missing_value_line last)).
Proof. cbn [main_parse]. exec. by rewrite ret_run. Qed.

(** What [main] comes to, in all: a rejected command line exits, an
    accepted one gets to the run loop or dies on the way. *)
Lemma main_outcome_cases (env : Provider) (argv : list string) (w : World) :
  (exists status w',
      main env argv w = (Exited status, w')
      /\ (help_request argv -> status = 0)
      /\ (~ help_request argv -> status = 1)
      /\ ~ accepted argv)
  \/ (accepted argv
      /\ ~ help_request argv
      /\ exists w',
           (main env argv w = (Running, w')
            /\ (string_fields_utf8 (parsed_config argv) = true
                \/ (base_filter_ok env (matching_calls w) = false
                    /\ base_filter_ok env (S (matching_calls w)) = false)))
           \/ (main env argv w = (Killed, w')
               /\ string_fields_utf8 (parsed_config argv) = false
               /\ (base_filter_ok env (matching_calls w) = true
                   \/ base_filter_ok env (S (matching_calls w)) = true))).
Proof.
  destruct (main_parse_run (tail argv) config_zero w) as [[c Hp]|[line Hp]].
  - assert ((main_parse (tail argv) config_zero w).1 = inr c) as Hc
      by (by rewrite Hp).
    apply main_parse_inr in Hc as Hparts.
    destruct Hparts as (Heven & Hknown & Hcfg).
    fold (parsed_config argv) in Hcfg. subst c.
    destruct (filter_spec_empty_dec (parsed_config argv)) as [Hf|Hf];
      [|destruct (no_action_dec (parsed_config argv)) as [Ha|Ha]].
    + left. destruct (main_rejects env argv w)
        as (s & w' & evs & Hr & H0 & H1 & _).
      { intros config Hcfg. rewrite Hc in Hcfg. injection Hcfg as <-.
        by left. }
      exists s, w'. repeat split; [done | done | done |].
      by intros (_ & _ & Hn & _).
    + left. destruct (main_rejects env argv w)
        as (s & w' & evs & Hr & H0 & H1 & _).
      { intros config Hcfg. rewrite Hc in Hcfg. injection Hcfg as <-.
        by right. }
      exists s, w'. repeat split; [done | done | done |].
      by intros (_ & _ & _ & Hn).
    + right. split; [done|].
      split; [by apply (valid_not_help argv (parsed_config argv) w)|].
      destruct (main_valid_outcome env argv (parsed_config argv) w Hc Hf Ha)
        as (w' & [(Hr & _ & Hok) | (Hr & Hu & Hb)]);
        exists w'; [by left | by right].
  - left. destruct (main_rejects env argv w)
      as (s & w' & evs & Hr & H0 & H1 & _).
    { intros config Hcfg. rewrite Hp in Hcfg. discriminate Hcfg. }
    exists s, w'. repeat split; [done | done | done |].
    intros (Heven & Hknown & _).
    assert ((main_parse (tail argv) config_zero w).1
            = inr (parsed_config argv)) as Hc by (by apply main_parse_inr).
    rewrite Hp in Hc. discriminate Hc.
Qed.

Lemma help_request_dec (argv : list string) :
  help_request argv \/ ~ help_request argv.
Proof.
  rewrite <- main_help_check. destruct (_ || _)%bool; [by left | by right].
Qed.

(** X1: the loop stops at the leftmost unknown flag and reports that one,
    whatever comes after it. *)
Theorem leftmost_unknown_flag_is_reported
    (env : Provider) (prog : string) (a : list (Flag * string))
    (flag val : string) (rest : list string) (w : World) :
  flag ∉ known_flags ->
  main env (prog :: flatten_pairs (known_pairs a) ++ flag :: val :: rest) w
  = (Exited 1, with_stderr w (unknown_flag_line flag)).
Proof.
  intros Hunk. apply main_parse_error_run.
  - apply long_not_help. cbn [length]. rewrite length_app. cbn [length]. lia.
  - cbn [tail]. apply main_parse_known_prefix. intros c.
    by apply main_parse_unknown.
Qed.

Lemma leftmost_unknown_flag_witness :
  ("--verbose" ∉ known_flags)
  /\ main quiet ["hidkitd"; "--vendor-id"; "1"; "--verbose"; "x"; "--bogus"] boot
     = (Exited 1, with_stderr boot (unknown_flag_line "--verbose")).
Proof.
  assert ("--verbose" ∉ known_flags) as H.
  { intros Hin. unfold known_flags, all_flags in Hin. cbn in Hin.
    repeat (apply elem_of_cons in Hin as [Hin|Hin]; [discriminate Hin|]).
    by apply elem_of_nil in Hin. }
  split; [exact H|].
  exact (leftmost_unknown_flag_is_reported quiet "hidkitd" [(FVendorID, "1")]
           "--verbose" "x" ["--bogus"] boot H).
Defined.

(** X2: an argument left alone at the end is reported as a flag without
    its value, known flag or not, once every flag before it has been
    accepted; the one exception is [--help] as the only argument. *)
Theorem dangling_argument_is_reported
    (env : Provider) (prog : string) (a : list (Flag * string))
    (last : string) (w : World) :
  ~ (a = [] /\ last = "--help") ->
  main env (prog :: flatten_pairs (known_pairs a) ++ [last]) w
  = (Exited 1, with_stderr w (missing_value_line last)).
Proof.
  intros Hnot. apply main_parse_error_run.
  - destruct a as [|[fl v] a].
    + intros [p [H | H]]; [discriminate H|].
      injection H as _ ->. by apply Hnot.
    + apply long_not_help. cbn. lia.
  - cbn [tail]. apply main_parse_known_prefix. intros c.
    apply main_parse_dangling.
Qed.

Lemma dangling_argument_witness :
  ~ ([(FName, "kbd")] = [] /\ "--bogus" = "--help")
  /\ main quiet ["hidkitd"; "--name"; "kbd"; "--bogus"] boot
     = (Exited 1, with_stderr boot (missing_value_line "--bogus")).
Proof.
  assert (~ ([(FName, "kbd")] = [] /\ "--bogus" = "--help")) as H
    by (intros [H _]; discriminate H).
  split; [exact H|].
  exact (dangling_argument_is_reported quiet "hidkitd" [(FName, "kbd")]
           "--bogus" boot H).
Defined.

(** X3: the help text is the answer to two command lines only: the bare
    program name, and the program name with [--help].  For every other
    command line [main] does not return 0.  After accepted pairs, [--help]
    with an argument behind it is reported as an unknown flag, and
    [--help] as the last argument as a flag without its value. *)
Theorem help_flag_only_alone
    (env : Provider) (argv : list string) (prog : string)
    (p : Flag * string) (a : list (Flag * string))
    (val : string) (rest : list string) (w : World) :
  ((main env argv w).1 = Exited 0 <-> help_request argv)
  /\ main env (prog :: flatten_pairs (known_pairs a) ++ "--help" :: val :: rest) w
     = (Exited 1, with_stderr w (unknown_flag_line "--help"))
  /\ main env (prog :: flatten_pairs (known_pairs (p :: a)) ++ ["--help"]) w
     = (Exited 1, with_stderr w (missing_value_line "--help")).
Proof.
  split; [|split].
  - destruct (main_outcome_cases env argv w)
      as [(s & w' & Hr & H0 & H1 & _) | (_ & Hnot & w' & [[Hr _] | [Hr _]])];
      rewrite Hr; cbn [fst].
    + destruct (help_request_dec argv) as [Hh|Hh].
      * by rewrite (H0 Hh).
      * rewrite (H1 Hh). by split.
    + by split.
    + by split.
  - apply main_parse_error_run.
    + apply long_not_help. cbn [length]. rewrite length_app. cbn [length]. lia.
    + cbn [tail]. apply main_parse_known_prefix. intros c.
      apply main_parse_unknown. intros Hin.
      unfold known_flags, all_flags in Hin. cbn in Hin.
      repeat (apply elem_of_cons in Hin as [Hin|Hin]; [discriminate Hin|]).
      by apply elem_of_nil in Hin.
  - apply main_parse_error_run.
    + apply long_not_help. destruct p. cbn. lia.
    + cbn [tail]. apply main_parse_known_prefix. intros c.
      apply main_parse_dangling.
Qed.

(** X4: once the flags are accepted, the filter check comes first: a
    configuration without a filter gets the filter message, also when it
    has no action either; the action message is for a configuration with
    a filter and no action.  In both cases that line is all the process
    writes. *)
Theorem validation_reports_filter_before_action
    (env : Provider) (argv : list string) (config : AppConfig) (w : World) :
  ~ help_request argv ->
  (main_parse (tail argv) config_zero w).1 = inr config ->
  (filter_spec_empty config ->
   main env argv w = (Exited 1, with_stderr w no_filter_line))
  /\ (~ filter_spec_empty config -> no_action config ->
      main env argv w = (Exited 1, with_stderr w no_action_line)).
Proof.
  intros Hnot Hparse. apply main_parse_inr_run in Hparse. split.
  - intros Hempty. by apply (main_no_filter_run env argv w w config).
  - intros Hfilter Hnone. by apply (main_no_action_run env argv w w config).
Qed.

Lemma validation_reports_filter_before_action_witness :
  main quiet ["hidkitd"; "--vendor-id"; "0"] boot
  = (Exited 1, with_stderr boot no_filter_line)
  /\ main quiet ["hidkitd"; "--vendor-id"; "7"] boot
     = (Exited 1, with_stderr boot no_action_line).
Proof.
  split.
  - refine (proj1 (validation_reports_filter_before_action quiet
                     ["hidkitd"; "--vendor-id"; "0"]
                     (mkAppConfig 0 0 0 0 None None None None) boot _ _) _).
    + apply long_not_help. simpl. lia.
    + reflexivity.
    + by repeat split.
  - refine (proj2 (validation_reports_filter_before_action quiet
                     ["hidkitd"; "--vendor-id"; "7"]
                     (mkAppConfig 7 0 0 0 None None None None) boot _ _) _ _).
    + apply long_not_help. simpl. lia.
    + by vm_compute.
    + intros [H _]. discriminate H.
    + by split.
Defined.

(** X5: [main] gets to the run loop exactly for an accepted command line
    (an even number of arguments, every flag known, at least one filter
    field and at least one action field set) whose string filters are
    UTF-8 or for which [IOServiceMatching] returns NULL both times; and the
    process dies during start-up exactly for an accepted command line with
    a string filter that is not UTF-8 when [IOServiceMatching] hands out a
    dictionary.  Nothing else the provider answers has a say in it. *)
Theorem main_runs_iff_filter_and_action
    (env : Provider) (argv : list string) (w : World) :
  ((main env argv w).1 = Running <->
     accepted argv
     /\ (string_fields_utf8 (parsed_config argv) = true
         \/ (base_filter_ok env (matching_calls w) = false
             /\ base_filter_ok env (S (matching_calls w)) = false)))
  /\ ((main env argv w).1 = Killed <->
        accepted argv
        /\ string_fields_utf8 (parsed_config argv) = false
        /\ (base_filter_ok env (matching_calls w) = true
            \/ base_filter_ok env (S (matching_calls w)) = true)).
Proof.
  destruct (main_outcome_cases env argv w)
    as [(s & w' & Hr & _ & _ & Hno)
       | (Hacc & _ & w' & [[Hr Hok] | (Hr & Hu & Hb)])];
    rewrite Hr; cbn [fst].
  - split; (split; [discriminate | tauto]).
  - split; [tauto|]. split; [discriminate|].
    intros (_ & Hu & Hb). destruct Hok as [Hok | [Hk1 Hk2]]; [congruence|].
    destruct Hb; congruence.
  - split; [|tauto]. split; [discriminate|].
    intros (_ & [Hok | [Hk1 Hk2]]); [congruence|].
    destruct Hb; congruence.
Qed.

(** ** Numbers on the command line *)

Lemma read_digits_of_uint_acc (d : Decimal.uint) :
  forall (acc : positive) (junk : string),
    no_leading_digit junk = true ->
    read_digits (DecimalString.NilEmpty.string_of_uint d +:+ junk) (Z.pos acc)
    = Z.pos (Pos.of_uint_acc d acc).
Proof.
  induction d; intros acc junk Hjunk;
    cbn [DecimalString.NilEmpty.string_of_uint Pos.of_uint_acc];
    try (rewrite string_app_cons; cbn [read_digits];
         match goal with
         | |- context [digit_of ?c] =>
             let v := eval vm_compute in (digit_of c) in
             change (digit_of c) with v
         end;
         cbv beta iota; rewrite <- (IHd _ junk Hjunk); f_equal; lia).
  change (EmptyString +:+ junk) with junk.
  destruct junk as [|c junk]; [done|]. cbn [read_digits].
  cbn [no_leading_digit] in Hjunk. by destruct (digit_of c).
Qed.

Lemma read_digits_of_uint (d : Decimal.uint) (junk : string) :
  no_leading_digit junk = true ->
  read_digits (DecimalString.NilEmpty.string_of_uint d +:+ junk) 0
  = Z.of_N (Pos.of_uint d).
Proof.
  intros Hjunk.
  induction d;
    cbn [DecimalString.NilEmpty.string_of_uint Pos.of_uint];
    try (rewrite string_app_cons; cbn [read_digits];
         match goal with
         | |- context [digit_of ?c] =>
             let v := eval vm_compute in (digit_of c) in
             change (digit_of c) with v
         end;
         cbv beta iota;
         first [ exact IHd
               | match goal with
                 | |- read_digits _ ?z = _ =>
                     let p := eval vm_compute in (Z.to_pos z) in
                     change z with (Z.pos p)
                 end;
                 by rewrite read_digits_of_uint_acc ]).
  change (EmptyString +:+ junk) with junk.
  destruct junk as [|c junk]; [done|]. cbn [read_digits].
  cbn [no_leading_digit] in Hjunk. by destruct (digit_of c).
Qed.

Lemma strtol_of_uint (d : Decimal.uint) (junk : string) :
  d <> Decimal.Nil ->
  strtol (DecimalString.NilEmpty.string_of_uint d +:+ junk)
  = clamp_long
      (read_digits (DecimalString.NilEmpty.string_of_uint d +:+ junk) 0)
  /\ strtol (String "-"%char
               (DecimalString.NilEmpty.string_of_uint d +:+ junk))
     = clamp_long
         (- read_digits (DecimalString.NilEmpty.string_of_uint d +:+ junk) 0).
Proof.
  intros Hd. split; [|reflexivity].
  destruct d; [done| | | | | | | | | |];
    cbn [DecimalString.NilEmpty.string_of_uint]; rewrite string_app_cons;
    reflexivity.
Qed.

Lemma to_uint_not_nil (p : positive) : Pos.to_uint p <> Decimal.Nil.
Proof.
  intros H. pose proof (DecimalPos.Unsigned.of_to p) as Hp.
  rewrite H in Hp. discriminate Hp.
Qed.

Lemma string_of_uint_not_nil (d : Decimal.uint) :
  d <> Decimal.Nil ->
  DecimalString.NilZero.string_of_uint d
  = DecimalString.NilEmpty.string_of_uint d.
Proof. by destruct d. Qed.

(** [strtol] reads the decimal notation of [z] back as [z], cut to the
    range of [long], and does not look at what follows the digits. *)
Lemma strtol_decimal (z : Z) (junk : string) :
  no_leading_digit junk = true ->
  strtol (decimal z +:+ junk) = clamp_long z.
Proof.
  intros Hjunk. unfold decimal. destruct z as [|p|p]; cbn [Z.to_int].
  - cbn [DecimalString.NilZero.string_of_int].
    change (DecimalString.NilZero.string_of_uint Decimal.zero)
      with (DecimalString.NilEmpty.string_of_uint (Decimal.D0 Decimal.Nil)).
    rewrite (proj1 (strtol_of_uint (Decimal.D0 Decimal.Nil) junk ltac:(done))).
    by rewrite read_digits_of_uint.
  - cbn [DecimalString.NilZero.string_of_int].
    rewrite string_of_uint_not_nil by apply to_uint_not_nil.
    rewrite (proj1 (strtol_of_uint _ junk (to_uint_not_nil p))).
    by rewrite read_digits_of_uint, DecimalPos.Unsigned.of_to.
  - cbn [DecimalString.NilZero.string_of_int].
    rewrite string_of_uint_not_nil by apply to_uint_not_nil.
    rewrite string_app_cons.
    rewrite (proj2 (strtol_of_uint _ junk (to_uint_not_nil p))).
    by rewrite read_digits_of_uint, DecimalPos.Unsigned.of_to.
Qed.

Lemma clamp_long_range (z : Z) : LONG_MIN <= clamp_long z <= LONG_MAX.
Proof.
  unfold clamp_long, LONG_MIN, LONG_MAX.
  destruct (Z.gtb_spec z 9223372036854775807); [lia|].
  destruct (Z.ltb_spec z (-9223372036854775808)); lia.
Qed.

Lemma clamp_long_id (z : Z) :
  LONG_MIN <= z <= LONG_MAX -> clamp_long z = z.
Proof.
  unfold clamp_long, LONG_MIN, LONG_MAX. intros H.
  destruct (Z.gtb_spec z 9223372036854775807); [lia|].
  destruct (Z.ltb_spec z (-9223372036854775808)); [lia | done].
Qed.

Lemma strtol_range (val : string) : LONG_MIN <= strtol val <= LONG_MAX.
Proof.
  unfold strtol. destruct (skip_spaces val) as [|c s].
  - apply clamp_long_range.
  - destruct c as [[] [] [] [] [] [] [] []]; apply clamp_long_range.
Qed.

Lemma numeric_flag_cases (fl : Flag) :
  fl ∈ numeric_flags <->
  fl = FVendorID \/ fl = FProductID \/ fl = FUsagePage \/ fl = FUsage.
Proof.
  unfold numeric_flags. rewrite !elem_of_cons, elem_of_nil. tauto.
Qed.

(** X6: a numeric flag followed by the decimal notation of an integer
    stores that integer, cut to the range of [long]; text after the digits
    that does not start with a digit is ignored without complaint. *)
Theorem numeric_flag_stores_decimal_value
    (fl : Flag) (z : Z) (junk : string) (c : AppConfig) (w : World) :
  fl ∈ numeric_flags ->
  no_leading_digit junk = true ->
  exists c',
    main_parse [flag_name fl; decimal z +:+ junk] c w = (inr c', w)
    /\ numeric_field fl c' = Some (clamp_long z)
    /\ (LONG_MIN <= z <= LONG_MAX -> numeric_field fl c' = Some z)
    /\ (LONG_MAX < z -> numeric_field fl c' = Some LONG_MAX)
    /\ (z < LONG_MIN -> numeric_field fl c' = Some LONG_MIN).
Proof.
  intros Hfl Hjunk. exists (store fl (decimal z +:+ junk) c).
  cbn [main_parse]. rewrite set_flag_known. split; [done|].
  assert (numeric_field fl (store fl (decimal z +:+ junk) c)
          = Some (clamp_long z)) as Hfield.
  { apply numeric_flag_cases in Hfl as [-> | [-> | [-> | ->]]];
      cbn [store numeric_field vendorID productID usagePage usage];
      by rewrite strtol_decimal. }
  rewrite Hfield. split; [done|].
  unfold clamp_long, LONG_MIN, LONG_MAX.
  split; [|split]; intros H;
    destruct (Z.gtb_spec z 9223372036854775807);
    destruct (Z.ltb_spec z (-9223372036854775808)); (done || lia).
Qed.

Lemma numeric_flag_stores_decimal_value_witness :
  FProductID ∈ numeric_flags
  /\ no_leading_digit "abc" = true
  /\ decimal 5678 +:+ "abc" = "5678abc"
  /\ exists c',
       main_parse ["--product-id"; "5678abc"] config_zero boot = (inr c', boot)
       /\ productID c' = 5678.
Proof.
  assert (FProductID ∈ numeric_flags) as Hfl
    by (apply numeric_flag_cases; tauto).
  split; [exact Hfl|]. split; [reflexivity|]. split; [reflexivity|].
  destruct (numeric_flag_stores_decimal_value FProductID 5678 "abc"
              config_zero boot Hfl eq_refl) as (c' & Hrun & Hc & _).
  exists c'. split; [exact Hrun|]. by injection Hc.
Defined.

(** X7: whatever values the flags carry, the numeric fields of the
    configuration the loop hands over are within the range of [long]. *)
Theorem parsed_numbers_within_long
    (args : list string) (config : AppConfig) (w : World) :
  (main_parse args config_zero w).1 = inr config ->
  (LONG_MIN <= vendorID config <= LONG_MAX)
  /\ (LONG_MIN <= productID config <= LONG_MAX)
  /\ (LONG_MIN <= usagePage config <= LONG_MAX)
  /\ (LONG_MIN <= usage config <= LONG_MAX).
Proof.
  intros Hparse. apply main_parse_inr in Hparse as (_ & _ & ->).
  unfold config_after, last_number.
  cbn [vendorID productID usagePage usage config_zero].
  repeat split;
    match goal with
    | |- context [last_value ?f ?l] => destruct (last_value f l)
    end; first [apply strtol_range | unfold LONG_MIN, LONG_MAX; lia].
Qed.

Lemma parsed_numbers_within_long_witness :
  (main_parse ["--usage"; "99999999999999999999999"] config_zero boot).1
  = inr (mkAppConfig 0 0 0 LONG_MAX None None None None)
  /\ LONG_MIN <= usage (mkAppConfig 0 0 0 LONG_MAX None None None None)
     <= LONG_MAX.
Proof.
  assert ((main_parse ["--usage"; "99999999999999999999999"] config_zero boot).1
          = inr (mkAppConfig 0 0 0 LONG_MAX None None None None)) as H
    by (by vm_compute).
  split; [exact H|].
  exact (proj2 (proj2 (proj2 (parsed_numbers_within_long _ _ _ H)))).
Defined.

(** ** Values that are not decimal numbers, and the order of flags *)

Lemma strtol_hex (s : string) : strtol ("0x" +:+ s) = 0.
Proof. reflexivity. Qed.

Lemma numeric_field_store (fl : Flag) (val : string) (c : AppConfig) :
  fl ∈ numeric_flags -> numeric_field fl (store fl val c) = Some (strtol val).
Proof. intros H. by apply numeric_flag_cases in H as [-> | [-> | [-> | ->]]]. Qed.

Lemma filter_spec_empty_store_zero (fl : Flag) (val p : string) :
  fl ∈ numeric_flags ->
  strtol val = 0 ->
  filter_spec_empty (store FOnConnect p (store fl val config_zero)).
Proof.
  intros Hfl Hzero.
  apply numeric_flag_cases in Hfl as [-> | [-> | [-> | ->]]];
    unfold filter_spec_empty; cbn; by rewrite Hzero.
Qed.

(** X8: the numeric flags read base 10 only.  A value that [strtol] reads
    as 0, such as any [0x...] literal, leaves the field at 0, which is the
    mark of an absent filter: given as the only filter, the command line is
    turned down for having no filter. *)
Theorem numeric_filter_read_as_zero_counts_as_absent
    (env : Provider) (prog val p : string) (fl : Flag) (w : World) :
  fl ∈ numeric_flags ->
  strtol val = 0 ->
  main env [prog; flag_name fl; val; "--on-connect"; p] w
  = (Exited 1, with_stderr w no_filter_line).
Proof.
  intros Hfl Hzero.
  apply (main_no_filter_run env _ w w
           (store FOnConnect p (store fl val config_zero))).
  - apply long_not_help. simpl. lia.
  - cbn [tail main_parse]. rewrite set_flag_known.
    change "--on-connect" with (flag_name FOnConnect).
    by rewrite set_flag_known.
  - by apply filter_spec_empty_store_zero.
Qed.

Lemma numeric_filter_read_as_zero_witness :
  FVendorID ∈ numeric_flags
  /\ strtol "0x046d" = 0
  /\ main quiet ["hidkitd"; "--vendor-id"; "0x046d"; "--on-connect"; "/tmp/c.sh"]
       boot
     = (Exited 1, with_stderr boot no_filter_line).
Proof.
  assert (FVendorID ∈ numeric_flags) as Hfl
    by (apply numeric_flag_cases; tauto).
  split; [exact Hfl|]. split; [reflexivity|].
  exact (numeric_filter_read_as_zero_counts_as_absent quiet "hidkitd" "0x046d"
           "/tmp/c.sh" FVendorID boot Hfl (strtol_hex "046d")).
Defined.

Lemma store_comm (fl1 fl2 : Flag) (v1 v2 : string) (c : AppConfig) :
  fl1 <> fl2 ->
  store fl1 v1 (store fl2 v2 c) = store fl2 v2 (store fl1 v1 c).
Proof. intros Hne. by destruct fl1, fl2. Qed.

(** X9: two flag/value pairs next to each other whose flags are two
    different ones of the eight accepted flags can change places without
    any change in what [main] does, whatever comes before and after them.
    (For flags that are not accepted this fails: the one that comes first
    is the one reported.) *)
Theorem different_flags_commute
    (env : Provider) (prog : string) (a : list (string * string))
    (fl1 fl2 : Flag) (v1 v2 : string) (rest : list string) (w : World) :
  fl1 <> fl2 ->
  main env (prog :: flatten_pairs a ++ flag_name fl1 :: v1 ::
            flag_name fl2 :: v2 :: rest) w
  = main env (prog :: flatten_pairs a ++ flag_name fl2 :: v2 ::
              flag_name fl1 :: v1 :: rest) w.
Proof.
  intros Hne. unfold main. cbv zeta.
  rewrite !main_not_help_check
    by (cbn [length]; rewrite ?length_app; cbn [length]; lia).
  cbn [tail]. apply bind_congr, main_parse_prefix. intros c w'.
  cbn [main_parse]. rewrite !set_flag_known. by rewrite store_comm.
Qed.

Lemma different_flags_commute_witness :
  FVendorID <> FOnConnect
  /\ main desk ["hidkitd"; "--vendor-id"; "1234"; "--on-connect"; "/tmp/c.sh"]
       boot
     = main desk ["hidkitd"; "--on-connect"; "/tmp/c.sh"; "--vendor-id"; "1234"]
         boot.
Proof.
  assert (FVendorID <> FOnConnect) as H by discriminate.
  split; [exact H|].
  exact (different_flags_commute desk "hidkitd" [] FVendorID FOnConnect
           "1234" "/tmp/c.sh" [] boot H).
Defined.

(** ** Properties of every event the daemon emits *)

Section Emits.

Variable env : Provider.
Variable P : list Event -> Prop.
Variable allowed : string -> Prop.

Hypothesis P_nil : P [].
Hypothesis P_app : forall a b, P a -> P b -> P (a ++ b).
Hypothesis P_quiet : forall e, quiet_event e = true -> P [e].
Hypothesis P_line : forall text, P [EvStdout text; EvFlush].
Hypothesis P_launch :
  forall command status, allowed command -> P [EvSystem command status].

Lemma emits_ret {A} (a : A) : emits P (mret a).
Proof. intros w. exists a, w, []. by rewrite app_nil_r. Qed.

Lemma emits_bind {A B} (m : M A) (k : A -> M B) :
  emits P m -> (forall a, emits P (k a)) -> emits P (m ≫= k).
Proof.
  intros Hm Hk w.
  destruct (Hm w) as (a & w1 & e1 & Hr1 & Ht1 & Hp1).
  destruct (Hk a w1) as (b & w2 & e2 & Hr2 & Ht2 & Hp2).
  exists b, w2, (e1 ++ e2). split; [|split].
  - by rewrite (bind_run_eq m k w w1 a Hr1).
  - by rewrite Ht2, Ht1, <- app_assoc.
  - by apply P_app.
Qed.

Lemma emits_emit (e : Event) : quiet_event e = true -> emits P (emit e).
Proof.
  intros He w. eexists tt, _, [e]. split; [reflexivity|].
  split; [reflexivity|]. by apply P_quiet.
Qed.

Lemma emits_line {A} (text : string) (k : M A) :
  emits P k -> emits P (printf text;; fflush_stdout;; k).
Proof.
  intros Hk w.
  match goal with
  | |- context [(printf text ≫= ?f) w] =>
      destruct (Hk (mkWorld (cf_heap w) (cf_next w) (matching_calls w)
                      (system_calls w) (subscriptions w)
                      (trace w ++ [EvStdout text; EvFlush])))
        as (a & w' & evs & Hr & Ht & Hp)
  end.
  exists a, w', ([EvStdout text; EvFlush] ++ evs).
  split; [|split].
  - exec. exec. cbn [cf_heap cf_next matching_calls system_calls
                     subscriptions trace].
    rewrite <- app_assoc. exact Hr.
  - rewrite Ht. cbn [trace]. by rewrite <- app_assoc.
  - apply P_app; [apply P_line | exact Hp].
Qed.

Lemma emits_system (command : string) :
  allowed command -> emits P (system env command;; mret tt).
Proof.
  intros Hc w. eexists tt, _, [_]. split; [reflexivity|].
  split; [reflexivity|]. by apply P_launch.
Qed.

Lemma emits_run_script (scriptPath : option string) :
  (forall path, scriptPath = Some path -> allowed (script_command path)) ->
  emits P (run_script env scriptPath).
Proof.
  intros Hok. unfold run_script.
  apply emits_bind; [by apply emits_emit|]. intros _.
  destruct scriptPath as [path|]; [|apply emits_ret].
  apply emits_line. apply emits_system. by apply Hok.
Qed.

Lemma emits_deviceConnected (config : AppConfig) (batch : list io_service_t) :
  (forall path, onConnectScript config = Some path ->
                allowed (script_command path)) ->
  emits P (deviceConnected env config batch).
Proof.
  intros Hok. induction batch as [|h batch IH]; [apply emits_ret|].
  cbn [deviceConnected]. apply emits_line.
  apply emits_bind; [by apply emits_run_script|]. intros _.
  apply emits_bind; [by apply emits_emit|]. intros _. apply IH.
Qed.

Lemma emits_deviceDisconnected (config : AppConfig)
    (batch : list io_service_t) :
  (forall path, onDisconnectScript config = Some path ->
                allowed (script_command path)) ->
  emits P (deviceDisconnected env config batch).
Proof.
  intros Hok. induction batch as [|h batch IH]; [apply emits_ret|].
  cbn [deviceDisconnected]. apply emits_line.
  apply emits_bind; [by apply emits_run_script|]. intros _.
  apply emits_bind; [by apply emits_emit|]. intros _. apply IH.
Qed.

Lemma emits_CFDictionarySetValue (d : nat) (key : string) (value : CFValue) :
  emits P (CFDictionarySetValue d key value).
Proof.
  intros w. eexists tt, _, []. split; [reflexivity|].
  cbn [trace]. by rewrite app_nil_r.
Qed.

Lemma emits_IOServiceMatching (name : string) :
  emits P (IOServiceMatching env name).
Proof.
  intros w. unfold IOServiceMatching.
  destruct (base_filter_ok env (matching_calls w));
    eexists _, _, [_]; (split; [reflexivity|]);
    (split; [reflexivity|]); by apply P_quiet.
Qed.

Lemma emits_set_string (d : nat) (key : string) (field : option string) :
  emits P (set_string d key field).
Proof.
  unfold set_string. destruct field as [s|]; [|apply emits_ret].
  destruct (CFStringCreateWithCString s); [|apply emits_ret].
  apply emits_bind; [apply emits_CFDictionarySetValue|]. intros _.
  apply emits_ret.
Qed.

Lemma emits_createMatchingDictionary (config : AppConfig) :
  emits P (createMatchingDictionary env config).
Proof.
  unfold createMatchingDictionary.
  apply emits_bind; [apply emits_IOServiceMatching|]. intros [d|].
  - unfold when.
    do 4 (apply emits_bind;
          [destruct (_ >? 0); [apply emits_CFDictionarySetValue
                              | apply emits_ret]
          | intros _]).
    apply emits_bind; [apply emits_set_string|]. intros [[]|]; [|apply emits_ret].
    apply emits_bind; [apply emits_set_string|]. intros [[]|]; apply emits_ret.
  - apply emits_bind; [by apply emits_emit|]. intros _. apply emits_ret.
Qed.

Lemma emits_IOServiceAddMatchingNotification (kind : NotificationKind)
    (matching : option nat) :
  emits P (IOServiceAddMatchingNotification env kind matching).
Proof.
  intros w. unfold IOServiceAddMatchingNotification.
  destruct (matching ≫= (fun d => cf_heap w !! d)) as [q|].
  - destruct (registration env kind q =? kIOReturnSuccess);
      eexists _, _, [_]; (split; [reflexivity|]);
      (split; [reflexivity|]); by apply P_quiet.
  - eexists _, _, [_]. split; [reflexivity|]. split; [reflexivity|].
    by apply P_quiet.
Qed.

Lemma emits_dispatch (config : AppConfig) (ev : DeviceEvent) :
  (forall path, onConnectScript config = Some path ->
                allowed (script_command path)) ->
  (forall path, onDisconnectScript config = Some path ->
                allowed (script_command path)) ->
  emits P (dispatch env config ev).
Proof.
  intros Hc Hd w. unfold dispatch. case_bool_decide.
  - destruct (ev_kind ev);
      [by apply emits_deviceConnected | by apply emits_deviceDisconnected].
  - exists tt, w, []. by rewrite app_nil_r.
Qed.

Lemma emits_pump (config : AppConfig) (evs : list DeviceEvent) :
  (forall path, onConnectScript config = Some path ->
                allowed (script_command path)) ->
  (forall path, onDisconnectScript config = Some path ->
                allowed (script_command path)) ->
  emits P (pump env config evs).
Proof.
  intros Hc Hd. induction evs as [|ev evs IH]; [apply emits_ret|].
  cbn [pump]. apply emits_bind; [by apply emits_dispatch|]. intros _. apply IH.
Qed.

(** The whole of [main] from a command line that is not a help request. *)
Lemma emits_main (argv : list string) (w : World) :
  ~ help_request argv ->
  (forall config path,
      (main_parse (tail argv) config_zero w).1 = inr config ->
      onConnectScript config = Some path \/ onDisconnectScript config = Some path ->
      allowed (script_command path)) ->
  exists a w' evs,
    main env argv w = (a, w') /\ trace w' = trace w ++ evs /\ P evs.
Proof.
  intros Hnot Hallowed.
  destruct (main_parse_run (tail argv) config_zero w) as [[c Hp]|[line Hp]].
  - destruct (filter_spec_empty_dec c) as [Hf|Hf];
      [|destruct (no_action_dec c) as [Ha|Ha]].
    + rewrite (main_no_filter_run env argv w w c Hnot Hp Hf).
      eexists _, _, [_]. split; [reflexivity|]. split; [reflexivity|].
      by apply P_quiet.
    + rewrite (main_no_action_run env argv w w c Hnot Hp Hf Ha).
      eexists _, _, [_]. split; [reflexivity|]. split; [reflexivity|].
      by apply P_quiet.
    + rewrite (main_startup_run env argv w w c Hnot Hp Hf Ha).
      assert (forall path, onConnectScript c = Some path ->
                           allowed (script_command path)) as Hc.
      { intros path Hpath. apply (Hallowed c path); [by rewrite Hp | by left]. }
      assert (forall path, onDisconnectScript c = Some path ->
                           allowed (script_command path)) as Hd.
      { intros path Hpath. apply (Hallowed c path); [by rewrite Hp | by right]. }
      revert w Hp Hallowed.
      assert (emits P
                (printf ("DAEMON: Starting up..." +:+ nl);;
                 fflush_stdout;;
                 emit EvRunLoopSource;;
                 matchDict ← createMatchingDictionary env c;
                 match matchDict with
                 | Halts => mret Killed
                 | Returns matchDict =>
                     matchedIterator ←
                       IOServiceAddMatchingNotification env
                         kIOMatchedNotification matchDict;
                     deviceConnected env c matchedIterator;;
                     termDict ← createMatchingDictionary env c;
                     match termDict with
                     | Halts => mret Killed
                     | Returns termDict =>
                         terminatedIterator ←
                           IOServiceAddMatchingNotification env
                             kIOTerminatedNotification termDict;
                         deviceDisconnected env c terminatedIterator;;
                         printf ("DAEMON: Monitoring started." +:+ nl);;
                         fflush_stdout;;
                         CFRunLoopRun env c;;
                         mret Running
                     end
                 end)) as Hem; [|by intros w _ _; apply Hem].
      apply emits_line.
      apply emits_bind; [by apply emits_emit|]. intros _.
      apply emits_bind; [apply emits_createMatchingDictionary|].
      intros [md|]; [|apply emits_ret].
      apply emits_bind; [apply emits_IOServiceAddMatchingNotification|].
      intros it1.
      apply emits_bind; [by apply emits_deviceConnected|]. intros _.
      apply emits_bind; [apply emits_createMatchingDictionary|].
      intros [td|]; [|apply emits_ret].
      apply emits_bind; [apply emits_IOServiceAddMatchingNotification|].
      intros it2.
      apply emits_bind; [by apply emits_deviceDisconnected|]. intros _.
      apply emits_line.
      apply emits_bind; [|intros _; apply emits_ret].
      unfold CFRunLoopRun. apply emits_bind; [by apply emits_emit|].
      intros _. by apply emits_pump.
  - rewrite (main_parse_error_run env argv w _ 1 Hnot Hp).
    eexists _, _, [_]. split; [reflexivity|]. split; [reflexivity|].
    by apply P_quiet.
Qed.

End Emits.

(** ** Flushing, and what gets launched *)

Lemma flushed_app (a b : list Event) :
  flushed a = true -> flushed b = true -> flushed (a ++ b) = true.
Proof.
  intros Ha Hb. induction a as [|e a IH]; [done|].
  destruct e; try (cbn [app flushed] in *; by apply IH).
  destruct a as [|e2 a]; [discriminate Ha|].
  destruct e2; try discriminate Ha.
  cbn [app flushed] in *. specialize (IH Ha). exact IH.
Qed.

Lemma flushed_quiet (e : Event) : quiet_event e = true -> flushed [e] = true.
Proof. by destruct e. Qed.

(** X10: unless it prints the help text, the daemon flushes the standard
    output right after every line it writes to it, under every provider. *)
Theorem stdout_flushed_after_every_line
    (env : Provider) (argv : list string) :
  ~ help_request argv ->
  flushed (trace (main env argv boot).2) = true.
Proof.
  intros Hnot.
  destruct (emits_main env (fun evs => flushed evs = true) (fun _ => True)
              eq_refl flushed_app flushed_quiet (fun _ => eq_refl)
              (fun _ _ _ => eq_refl) argv boot Hnot)
    as (a & w' & evs & Hr & Ht & Hp); [done|].
  rewrite Hr. cbn [snd]. by rewrite Ht.
Qed.

Lemma stdout_flushed_witness :
  ~ help_request argv_example
  /\ flushed (trace (main desk argv_example boot).2) = true.
Proof.
  assert (~ help_request argv_example) as H
    by (apply long_not_help; simpl; lia).
  split; [exact H|].
  exact (stdout_flushed_after_every_line desk argv_example H).
Defined.

Lemma launches_outputs_only (evs : list Event) :
  forallb is_output evs = true -> launches evs = [].
Proof.
  induction evs as [|e evs IH]; [done|]. cbn [forallb].
  intros [He Hevs]%andb_true_iff. destruct e; try discriminate He; by apply IH.
Qed.

(** X11: nothing is ever handed to [system] but the command built from the
    connect script or from the disconnect script of the configuration the
    command line parsed to, under every provider and for every delivery of
    the run loop. *)
Theorem only_configured_scripts_are_launched
    (env : Provider) (argv : list string) :
  Forall
    (fun command =>
       exists config,
         (main_parse (tail argv) config_zero boot).1 = inr config
         /\ configured_command config command)
    (launches (trace (main env argv boot).2)).
Proof.
  destruct ((length argv =? 1)%nat
            || ((length argv =? 2)%nat
                && String.eqb (nth 1 argv EmptyString) "--help"))%bool eqn:Hc.
  - apply main_help_check in Hc as Hhelp.
    destruct (outputs_only_print_help (nth 0 argv EmptyString) boot)
      as ([] & w' & evs & Hr & Ht & Ho).
    rewrite (main_help_run env argv boot w' Hhelp Hr). cbn [snd].
    rewrite Ht. cbn [trace boot app]. by rewrite launches_outputs_only.
  - assert (~ help_request argv) as Hnot.
    { rewrite <- main_help_check, Hc. done. }
    destruct (emits_main env
                (fun evs =>
                   Forall
                     (fun command =>
                        exists config,
                          (main_parse (tail argv) config_zero boot).1 = inr config
                          /\ configured_command config command)
                     (launches evs))
                (fun command =>
                   exists config,
                     (main_parse (tail argv) config_zero boot).1 = inr config
                     /\ configured_command config command))
      with (argv := argv) (w := boot)
      as (a & w' & evs & Hr & Ht & Hp).
    + constructor.
    + intros a b Ha Hb. rewrite launches_app. by apply Forall_app.
    + intros e He. by destruct e.
    + intros text. constructor.
    + intros command status Hok. cbn. by constructor.
    + exact Hnot.
    + intros config path Hparse Hpath. exists config. split; [done|].
      by exists path.
    + rewrite Hr. cbn [snd]. by rewrite Ht.
Qed.

(** ** Dictionaries and subscriptions at start-up *)

Section Subscribe.

Variable env : Provider.

Lemma subscribe_run (config : AppConfig) (kind : NotificationKind) (w : World) :
  string_fields_utf8 config = true ->
  cf_heap w = ∅ ->
  exists md w1 it w',
    createMatchingDictionary env config w = (Returns md, w1)
    /\ IOServiceAddMatchingNotification env kind md w1 = (it, w')
    /\ cf_heap w' = ∅
    /\ matching_calls w' = S (matching_calls w)
    /\ system_calls w' = system_calls w
    /\ subscriptions w' =
         subscriptions w
         ++ (if registered env (matching_calls w) kind config
             then [(kind, compiled_query config)] else [])
    /\ it = (if registered env (matching_calls w) kind config
             then present_matching env kind config
             else indeterminate env kind).
Proof.
  intros Hutf8 Hheap. unfold registered.
  destruct (base_filter_ok env (matching_calls w)) eqn:Hb.
  - eexists _, _.
    rewrite (createMatchingDictionary_built env config w Hb Hutf8).
    destruct (Z.eqb_spec (registration env kind (compiled_query config))
                kIOReturnSuccess) as [Hr|Hr].
    + eexists _, _. split; [reflexivity|].
      split; [apply add_notification_registered;
              [apply lookup_insert_eq | exact Hr]|].
      cbn [cf_heap cf_next matching_calls system_calls subscriptions andb].
      rewrite delete_insert_eq, Hheap, delete_empty. done.
    + eexists _, _. split; [reflexivity|].
      split; [apply add_notification_refused;
              [apply lookup_insert_eq | exact Hr]|].
      cbn [cf_heap cf_next matching_calls system_calls subscriptions andb].
      rewrite delete_insert_eq, Hheap, delete_empty, app_nil_r. done.
  - eexists _, _, _, _.
    split; [by apply createMatchingDictionary_null|].
    split; [apply add_notification_null|].
    cbn [cf_heap cf_next matching_calls system_calls subscriptions andb].
    by rewrite app_nil_r.
Qed.

Lemma pump_frame (config : AppConfig) (evs : list DeviceEvent) :
  forall w, exists w',
    pump env config evs w = (tt, w')
    /\ cf_heap w' = cf_heap w
    /\ subscriptions w' = subscriptions w.
Proof.
  induction evs as [|ev evs IH]; intros w; [by exists w|].
  cbn [pump].
  assert (exists w1, dispatch env config ev w = (tt, w1)
                     /\ cf_heap w1 = cf_heap w
                     /\ subscriptions w1 = subscriptions w)
    as (w1 & Hr1 & Hh1 & Hs1).
  { unfold dispatch. case_bool_decide; [|by exists w].
    destruct (ev_kind ev);
      [rewrite deviceConnected_run | rewrite deviceDisconnected_run];
      by eexists. }
  destruct (IH w1) as (w2 & Hr2 & Hh2 & Hs2).
  exists w2. rewrite (bind_run_eq _ _ _ _ _ Hr1).
  by rewrite Hr2, Hh2, Hs2.
Qed.

(** What [main] has built up when it sits in the run loop. *)
Lemma main_running_state (argv : list string) (config : AppConfig) (w : World) :
  (main_parse (tail argv) config_zero w).1 = inr config ->
  ~ filter_spec_empty config ->
  ~ no_action config ->
  string_fields_utf8 config = true ->
  cf_heap w = ∅ ->
  exists w',
    main env argv w = (Running, w')
    /\ cf_heap w' = ∅
    /\ subscriptions w' =
         subscriptions w
         ++ (if registered env (matching_calls w) kIOMatchedNotification config
             then [(kIOMatchedNotification, compiled_query config)] else [])
         ++ (if registered env (S (matching_calls w))
                   kIOTerminatedNotification config
             then [(kIOTerminatedNotification, compiled_query config)]
             else []).
Proof.
  intros Hparse Hfilter Haction Hutf8 Hheap.
  pose proof (valid_not_help argv config w Hparse Hfilter) as Hnot.
  apply main_parse_inr_run in Hparse.
  rewrite (main_startup_run env argv w w config Hnot Hparse Hfilter Haction).
  exec. exec. exec.
  match goal with |- context [(createMatchingDictionary env config ≫= _) ?w0] =>
    destruct (subscribe_run config kIOMatchedNotification w0 Hutf8 Hheap)
      as (md & w1 & it & w2 & Hc & Ha & Hh2 & Hm2 & Hy2 & Hs2 & _)
  end.
  exec_with ltac:(exact Hc). cbv beta iota. exec_with ltac:(exact Ha).
  exec_with ltac:(apply deviceConnected_run).
  match goal with |- context [(createMatchingDictionary env config ≫= _) ?w0] =>
    destruct (subscribe_run config kIOTerminatedNotification w0 Hutf8 Hh2)
      as (td & w3 & it' & w4 & Hc' & Ha' & Hh4 & Hm4 & Hy4 & Hs4 & _)
  end.
  exec_with ltac:(exact Hc'). cbv beta iota. exec_with ltac:(exact Ha').
  exec_with ltac:(apply deviceDisconnected_run).
  exec. exec. unfold CFRunLoopRun. 
  match goal with |- context [((emit EvRunLoopRun;; ?p) ≫= ?k) ?w0] =>
    destruct (pump_frame config (deliveries env)
                (mkWorld (cf_heap w0) (cf_next w0) (matching_calls w0)
                   (system_calls w0) (subscriptions w0)
                   (trace w0 ++ [EvRunLoopRun])))
      as (w' & Hr & Hh & Hs)
  end.
  exists w'. split.
  - erewrite bind_run_eq; [by rewrite ret_run|].
    exec. exact Hr.
  - cbn [cf_heap subscriptions matching_calls] in *.
    rewrite Hh, Hs, Hh4, Hs4, Hs2, Hm2.
    cbn [matching_calls]. by rewrite <- app_assoc.
Qed.

End Subscribe.

(** X12: for a command line that passes both checks and whose string
    filters are UTF-8, [main] sits in the run loop with no matching
    dictionary left over, whatever the provider answered: each one built
    was consumed by the registration it was built for.  A notification is
    registered exactly when its dictionary was built and the registration
    was granted: at most one per kind, the arrival one first, each with
    the compiled query. *)
Theorem startup_consumes_its_dictionaries
    (env : Provider) (argv : list string) (config : AppConfig) :
  (main_parse (tail argv) config_zero boot).1 = inr config ->
  ~ filter_spec_empty config ->
  ~ no_action config ->
  string_fields_utf8 config = true ->
  (main env argv boot).1 = Running
  /\ cf_heap (main env argv boot).2 = ∅
  /\ subscriptions (main env argv boot).2 =
       (if registered env 0 kIOMatchedNotification config
        then [(kIOMatchedNotification, compiled_query config)] else [])
       ++ (if registered env 1 kIOTerminatedNotification config
           then [(kIOTerminatedNotification, compiled_query config)] else []).
Proof.
  intros Hparse Hfilter Haction Hutf8.
  destruct (main_running_state env argv config boot Hparse Hfilter Haction
              Hutf8 eq_refl) as (w' & Hr & Hh & Hs).
  rewrite Hr. cbn [fst snd]. by rewrite Hh, Hs.
Qed.

Lemma startup_consumes_its_dictionaries_witness :
  (main refusing argv_example boot).1 = Running
  /\ cf_heap (main refusing argv_example boot).2 = ∅
  /\ subscriptions (main refusing argv_example boot).2 = [].
Proof.
  refine (startup_consumes_its_dictionaries refusing argv_example
            config_example _ _ _ _).
  - by vm_compute.
  - intros [H _]. vm_compute in H. discriminate H.
  - intros [H _]. vm_compute in H. discriminate H.
  - reflexivity.
Defined.

(** ** One device at a time *)

Lemma erase_run_script_events (env : Provider) (script : option string)
    (n : nat) :
  erase_status <$> run_script_events env script n =
    EvRunScript script ::
    match script with
    | None => []
    | Some path =>
        [EvStdout ("DAEMON: Executing command: " +:+ script_command path +:+ nl);
         EvFlush;
         EvSystem (script_command path) 0]
    end.
Proof. by destruct script. Qed.

Lemma erase_callback_events (env : Provider) (banner : string)
    (script : option string) (batch : list io_service_t) :
  forall n,
    erase_status <$> callback_events env banner script batch n
    = flat_map (handle_events banner script) batch.
Proof.
  induction batch as [|h batch IH]; intros n; [done|].
  cbn [callback_events flat_map]. rewrite !fmap_cons, fmap_app, fmap_cons.
  rewrite erase_run_script_events, IH. unfold handle_events.
  cbn [erase_status app]. by rewrite <- !app_assoc.
Qed.

Lemma callback_events_app (env : Provider) (banner : string)
    (script : option string) (b1 b2 : list io_service_t) :
  forall n,
    callback_events env banner script (b1 ++ b2) n
    = callback_events env banner script b1 n
      ++ callback_events env banner script b2
           (n + length b1 * launch_count script).
Proof.
  induction b1 as [|h b1 IH]; intros n.
  - cbn. by rewrite Nat.add_0_r.
  - cbn [app callback_events length]. rewrite IH.
    replace (n + S (length b1) * launch_count script)%nat
      with (n + launch_count script + length b1 * launch_count script)%nat
      by lia.
    by rewrite <- !app_assoc.
Qed.

(** X13: a callback deals with the handles of its batch one after the
    other, in the order of the iterator; for each it writes its banner,
    calls [run_script], which returns only when [system] has, and releases
    the handle after that, before it turns to the next one. *)
Theorem callback_handles_one_device_at_a_time
    (env : Provider) (config : AppConfig) (batch : list io_service_t)
    (w : World) :
  (exists evs,
      trace (deviceConnected env config batch w).2 = trace w ++ evs
      /\ erase_status <$> evs
         = flat_map (handle_events connect_banner (onConnectScript config))
             batch)
  /\ (exists evs,
      trace (deviceDisconnected env config batch w).2 = trace w ++ evs
      /\ erase_status <$> evs
         = flat_map
             (handle_events disconnect_banner (onDisconnectScript config))
             batch).
Proof.
  split.
  - rewrite deviceConnected_run. eexists. split; [reflexivity|].
    apply erase_callback_events.
  - rewrite deviceDisconnected_run. eexists. split; [reflexivity|].
    apply erase_callback_events.
Qed.

(** X14: handling a batch in one call of a callback is the same as
    handling its first part in one call and the rest in the next. *)
Theorem callback_batches_compose
    (env : Provider) (config : AppConfig) (b1 b2 : list io_service_t)
    (w : World) :
  (deviceConnected env config b1;; deviceConnected env config b2) w
  = deviceConnected env config (b1 ++ b2) w
  /\ (deviceDisconnected env config b1;; deviceDisconnected env config b2) w
     = deviceDisconnected env config (b1 ++ b2) w.
Proof.
  split.
  - exec_with ltac:(apply deviceConnected_run).
    rewrite !deviceConnected_run.
    cbn [cf_heap cf_next matching_calls system_calls subscriptions trace].
    rewrite callback_events_app, length_app, <- app_assoc.
    do 2 f_equal. lia.
  - exec_with ltac:(apply deviceDisconnected_run).
    rewrite !deviceDisconnected_run.
    cbn [cf_heap cf_next matching_calls system_calls subscriptions trace].
    rewrite callback_events_app, length_app, <- app_assoc.
    do 2 f_equal. lia.
Qed.

(** ** The help text *)

Lemma print_help_run (prog_name : string) (w : World) :
  exists evs,
    print_help prog_name w =
      (tt, mkWorld (cf_heap w) (cf_next w) (matching_calls w) (system_calls w)
             (subscriptions w) (trace w ++ evs))
    /\ length evs = 34%nat
    /\ forallb is_stdout evs = true
    /\ evs !! 3%nat
       = Some (EvStdout ("Usage: " +:+ prog_name +:+ " [FILTERS] [ACTIONS]"
                         +:+ nl +:+ nl))
    /\ Forall
         (fun flag =>
            exists line, EvStdout line ∈ evs /\ contains flag line = true)
         ("--help" :: known_flags).
Proof.
  eexists. split.
  - unfold print_help. do 33 (exec; tidy). unfold printf, emit.
    cbn [cf_heap cf_next matching_calls system_calls subscriptions trace].
    repeat rewrite <- app_assoc. cbn [app]. reflexivity.
  - split; [reflexivity|]. split; [reflexivity|]. split; [reflexivity|].
    unfold known_flags, all_flags. cbn [fmap list_fmap flag_name].
    repeat apply Forall_cons_2; [| | | | | | | | | apply Forall_nil_2].
    + eexists. split; [do 15 apply list_elem_of_further;
                       apply list_elem_of_here | reflexivity].
    + eexists. split; [do 5 apply list_elem_of_further;
                       apply list_elem_of_here | reflexivity].
    + eexists. split; [do 6 apply list_elem_of_further;
                       apply list_elem_of_here | reflexivity].
    + eexists. split; [do 9 apply list_elem_of_further;
                       apply list_elem_of_here | reflexivity].
    + eexists. split; [do 10 apply list_elem_of_further;
                       apply list_elem_of_here | reflexivity].
    + eexists. split; [do 7 apply list_elem_of_further;
                       apply list_elem_of_here | reflexivity].
    + eexists. split; [do 8 apply list_elem_of_further;
                       apply list_elem_of_here | reflexivity].
    + eexists. split; [do 12 apply list_elem_of_further;
                       apply list_elem_of_here | reflexivity].
    + eexists. split; [do 13 apply list_elem_of_further;
                       apply list_elem_of_here | reflexivity].
Qed.

(** X15: whatever the program name, the help text goes to the standard
    output only, in 34 calls of [printf]; its usage line carries the
    program name; and every flag the argument loop accepts, and [--help],
    occurs in one of its lines. *)
Theorem help_text_lists_every_flag (prog_name : string) (w : World) :
  exists evs,
    trace (print_help prog_name w).2 = trace w ++ evs
    /\ length evs = 34%nat
    /\ forallb is_stdout evs = true
    /\ evs !! 3%nat
       = Some (EvStdout ("Usage: " +:+ prog_name +:+ " [FILTERS] [ACTIONS]"
                         +:+ nl +:+ nl))
    /\ Forall
         (fun flag =>
            exists line, EvStdout line ∈ evs /\ contains flag line = true)
         ("--help" :: known_flags).
Proof.
  destruct (print_help_run prog_name w) as (evs & Hr & H).
  exists evs. by rewrite Hr.
Qed.

(** ** Which paths are launched by the same command *)

Lemma string_app_inj_r (s1 s2 t : string) :
  s1 +:+ t = s2 +:+ t -> s1 = s2.
Proof.
  revert s2. induction s1 as [|c s1 IH]; intros [|c' s2] H.
  - done.
  - apply (f_equal String.length) in H.
    rewrite string_app_cons in H. cbn [String.length] in H.
    rewrite !string_length_app in H. simpl in H. lia.
  - apply (f_equal String.length) in H.
    rewrite string_app_cons in H. cbn [String.length] in H.
    rewrite !string_length_app in H. simpl in H. lia.
  - rewrite !string_app_cons in H. injection H as -> H.
    by rewrite (IH _ H).
Qed.

Lemma dq_app_inj (s1 s2 : string) : dq +:+ s1 = dq +:+ s2 -> s1 = s2.
Proof.
  intros H.
  exact (f_equal (fun s => match s with
                           | String _ t => t
                           | EmptyString => EmptyString
                           end) H).
Qed.

Lemma script_command_short (p : string) :
  (String.length p <= 2045)%nat -> script_command p = dq +:+ p +:+ dq.
Proof.
  intros H. rewrite script_command_eq.
  destruct (Nat.ltb_spec (String.length p) 2046); [|lia].
  rewrite string_take_all; [done | lia].
Qed.

Lemma script_command_long (p : string) :
  (2046 <= String.length p)%nat ->
  script_command p = dq +:+ string_take 2046 p.
Proof.
  intros H. rewrite script_command_eq.
  destruct (Nat.ltb_spec (String.length p) 2046); [lia|].
  by rewrite string_app_nil_r.
Qed.

Lemma script_command_mixed (p q : string) :
  (String.length p <= 2045)%nat -> (2046 <= String.length q)%nat ->
  script_command p = script_command q <->
    String.length p = 2045%nat /\ string_take 2046 q = p +:+ dq.
Proof.
  intros Hp Hq. rewrite (script_command_short p Hp), (script_command_long q Hq).
  split.
  - intros H. apply dq_app_inj in H. split; [|done].
    apply (f_equal String.length) in H.
    rewrite string_length_app, string_take_length in H.
        change (String.length dq) with 1%nat in H. lia.
  - intros [_ ->]. done.
Qed.

(** X16: two script paths are launched by the same command in three cases
    only: they are the same path; both have 2046 bytes or more and agree on
    the first 2046; or one has exactly 2045 bytes and the other continues
    it with a double quote. *)
Theorem script_commands_coincide (p q : string) :
  script_command p = script_command q <->
    p = q
    \/ ((2046 <= String.length p)%nat /\ (2046 <= String.length q)%nat
        /\ string_take 2046 p = string_take 2046 q)
    \/ (String.length p = 2045%nat /\ string_take 2046 q = p +:+ dq)
    \/ (String.length q = 2045%nat /\ string_take 2046 p = q +:+ dq).
Proof.
  split.
  - intros H.
    destruct (Nat.le_gt_cases (String.length p) 2045) as [Hp|Hp],
      (Nat.le_gt_cases (String.length q) 2045) as [Hq|Hq].
    + left. rewrite (script_command_short p Hp),
        (script_command_short q Hq) in H.
      apply dq_app_inj in H. by apply string_app_inj_r in H.
    + right. right. left. by apply script_command_mixed.
    + right. right. right. symmetry in H. by apply script_command_mixed.
    + right. left. rewrite script_command_long, (script_command_long q) in H
        by lia.
      apply dq_app_inj in H. repeat split; [lia | lia | done].
  - intros [-> | [(Hp & Hq & H) | [[Hp H] | [Hq H]]]].
    + done.
    + rewrite script_command_long, (script_command_long q) by lia.
      by rewrite H.
    + assert (2046 <= String.length q)%nat as Hq.
      { apply (f_equal String.length) in H.
        rewrite string_length_app, string_take_length in H.
        change (String.length dq) with 1%nat in H. lia. }
      apply script_command_mixed; [lia | done | done].
    + assert (2046 <= String.length p)%nat as Hp.
      { apply (f_equal String.length) in H.
        rewrite string_length_app, string_take_length in H.
        change (String.length dq) with 1%nat in H. lia. }
      symmetry. apply script_command_mixed; [lia | done | done].
Qed.

(** ** The query without constraints *)

Lemma number_constraint_None (z : Z) :
  number_constraint z = None <-> z <= 0.
Proof.
  pose proof (number_constraint_Some z (CFNumber z)) as H.
  destruct (number_constraint z) as [v|] eqn:E.
  - split; [done|]. intros Hle.
    assert (Some v = Some v) as Hv by done.
    pose proof (number_constraint_Some z v) as H'. rewrite E in H'.
    apply H' in Hv. lia.
  - split; [|done]. intros _.
    destruct (Z_le_gt_dec z 0) as [Hle|Hgt]; [done|].
    assert (None = Some (CFNumber z)) as Hn by (apply H; split; [lia | done]).
    discriminate.
Qed.

Lemma compiled_query_bare (config : AppConfig) :
  compiled_query config = {["IOProviderClass" := CFString "IOHIDUserDevice"]}
  <-> vendorID config <= 0 /\ productID config <= 0
      /\ usagePage config <= 0 /\ usage config <= 0
      /\ productName config = None /\ deviceAddress config = None.
Proof.
  split.
  - intros H.
    assert (forall k v, compiled_query config !! k = Some v ->
                        k = "IOProviderClass") as Hk.
    { intros k v. rewrite H. intros [-> _]%lookup_singleton_Some. done. }
    repeat split.
    + apply number_constraint_None.
      destruct (number_constraint (vendorID config)) as [v|] eqn:E; [|done].
      assert ("VendorID" = "IOProviderClass"); [|done].
      apply (Hk _ v), compiled_query_Some. rewrite E. tauto.
    + apply number_constraint_None.
      destruct (number_constraint (productID config)) as [v|] eqn:E; [|done].
      assert ("ProductID" = "IOProviderClass"); [|done].
      apply (Hk _ v), compiled_query_Some. rewrite E. tauto.
    + apply number_constraint_None.
      destruct (number_constraint (usagePage config)) as [v|] eqn:E; [|done].
      assert ("PrimaryUsagePage" = "IOProviderClass"); [|done].
      apply (Hk _ v), compiled_query_Some. rewrite E. tauto.
    + apply number_constraint_None.
      destruct (number_constraint (usage config)) as [v|] eqn:E; [|done].
      assert ("PrimaryUsage" = "IOProviderClass"); [|done].
      apply (Hk _ v), compiled_query_Some. rewrite E. tauto.
    + destruct (productName config) as [s|] eqn:E; [|done].
      assert ("Product" = "IOProviderClass"); [|done].
      apply (Hk _ (CFString s)), compiled_query_Some. rewrite E. simpl. tauto.
    + destruct (deviceAddress config) as [s|] eqn:E; [|done].
      assert ("DeviceAddress" = "IOProviderClass"); [|done].
      apply (Hk _ (CFString s)), compiled_query_Some. rewrite E. simpl. tauto.
  - intros (Hv & Hp & Hup & Hu & Hn & Ha).
    apply map_eq. intros k. apply option_eq. intros v.
    rewrite compiled_query_Some, lookup_singleton_Some, Hn, Ha.
    apply number_constraint_None in Hv, Hp, Hup, Hu.
    rewrite Hv, Hp, Hup, Hu. simpl.
    split.
    + intros [H|[H|[H|[H|[H|[H|H]]]]]]; destruct H as [-> H];
        done || by subst.
    + intros [<- <-]. tauto.
Qed.

(** X17: when the provider hands out the base dictionary and the string
    fields are UTF-8, the dictionary that [createMatchingDictionary]
    returns holds the class constraint alone exactly when no numeric field
    of the configuration is positive and neither string field is set; such
    a query selects every entry of the class. *)
Theorem createMatchingDictionary_bare_query
    (env : Provider) (config : AppConfig) (w : World) :
  base_filter_ok env (matching_calls w) = true ->
  string_fields_utf8 config = true ->
  exists d w' q,
    createMatchingDictionary env config w = (Returns (Some d), w')
    /\ cf_heap w' !! d = Some q
    /\ (q = {["IOProviderClass" := CFString "IOHIDUserDevice"]}
        <-> vendorID config <= 0 /\ productID config <= 0
            /\ usagePage config <= 0 /\ usage config <= 0
            /\ productName config = None /\ deviceAddress config = None)
    /\ (q = {["IOProviderClass" := CFString "IOHIDUserDevice"]} ->
        forall dev,
          matches q dev = true <-> dev_class dev = "IOHIDUserDevice").
Proof.
  intros Hok Hutf8. eexists _, _, (compiled_query config).
  split; [by apply createMatchingDictionary_built|].
  cbn [cf_heap]. split; [apply lookup_insert_eq|].
  split; [apply compiled_query_bare|].
  intros Hq dev. apply compiled_query_bare in Hq.
  destruct Hq as (Hv & Hp & Hup & Hu & Hn & Ha).
  rewrite matches_compiled_query, Hn, Ha.
  split; [tauto|]. intros Hc.
  repeat split; (done || lia).
Qed.

Lemma createMatchingDictionary_bare_query_witness :
  base_filter_ok desk (matching_calls boot) = true
  /\ string_fields_utf8 config_negative = true
  /\ exists d w' q,
       createMatchingDictionary desk config_negative boot
       = (Returns (Some d), w')
       /\ cf_heap w' !! d = Some q
       /\ q = {["IOProviderClass" := CFString "IOHIDUserDevice"]}.
Proof.
  split; [reflexivity|]. split; [reflexivity|].
  destruct (createMatchingDictionary_bare_query desk config_negative boot
              eq_refl eq_refl) as (d & w' & q & Hr & Hq & Hiff & _).
  exists d, w', q. split; [done|]. split; [done|].
  apply Hiff. vm_compute. repeat split; discriminate.
Defined.

(** ** A string filter that is not UTF-8 *)



